(** * Sting / Stockfish search core: the scalar policy of [search.cpp]

    A shallow embedding of the decision logic of [src/search.cpp]:
    the transposition-table value encoding, the probe-acceptance test,
    the head and tail of the main search node, one quiescence node,
    and the aspiration driver of the iterative-deepening loop.

    Conventions.
    - [Value], [Depth] and [Move] are C++ enums over [int]; they are
      read as [Z].  Every score the engine handles lies within
      [+/- VALUE_NONE], far from the limits of [int], so the machine
      arithmetic never overflows and coincides with the one of [Z].
      C++ [/] is the truncating [Z.quot].
    - The collaborators the file only calls ([Position], [TTEntry],
      the transposition table, [MovePicker], the evaluator) appear as
      records of the answers they give at the node under study.
    - A recursive call of [search]/[qsearch] on a child position is a
      function parameter of the node that makes it.
    - Left out: Steps 8 and 9 of [search] (null move, internal
      iterative deepening and the heuristics around them), whose
      outcome is the state the move loop starts from; the body of that
      loop past the counting of the move, which is a parameter; the
      split-point path; the time management of the driver. *)

From Stdlib Require Import ZArith Lia Bool List String DecimalString.
Import ListNotations.
Local Open Scope Z_scope.

(** ** The constants of types.h *)

Definition Value := Z.
Definition Depth := Z.
Definition Move := Z.
Definition Key := Z.

(** [types.h], [move.h] and [piece.h] are not part of the sources under
    study: their enumerators are parameters of the development.  The
    laws are the ones the data model states: plies are counted from 0,
    the draw score 0 and the ply counts lie strictly inside the band
    of ordinary scores [MATED_IN_PLY_MAX .. MATE_IN_PLY_MAX],
    [VALUE_INFINITE] lies above every score, and a known win is a
    score. *)
Class Types := {
  PLY_MAX : Z;
  VALUE_KNOWN_WIN : Value;
  VALUE_MATE : Value;
  VALUE_INFINITE : Value;
  VALUE_NONE : Value;
  ONE_PLY : Depth;
  DEPTH_QS_CHECKS : Depth;
  DEPTH_QS_NO_CHECKS : Depth;
  DEPTH_NONE : Depth;
  MOVE_NULL : Move;
  KING : Z;
  PawnValueMidgame : Value;
  PawnValueEndgame : Value;
  RookValueMidgame : Value;
  ply_max_nonneg : 0 <= PLY_MAX;
  ply_max_lt_mate : PLY_MAX < VALUE_MATE - PLY_MAX;
  mate_lt_infinite : VALUE_MATE < VALUE_INFINITE;
  known_win_le_mate : VALUE_KNOWN_WIN <= VALUE_MATE
}.

(** The values of the Stockfish 2.1 headers this file is compiled
    against. *)
#[refine] Instance Stockfish21 : Types := {|
  PLY_MAX := 100;
  VALUE_KNOWN_WIN := 15000;
  VALUE_MATE := 30000;
  VALUE_INFINITE := 30001;
  VALUE_NONE := 30002;
  ONE_PLY := 2;
  DEPTH_QS_CHECKS := -2;
  DEPTH_QS_NO_CHECKS := -4;
  DEPTH_NONE := -254;
  MOVE_NULL := 65;
  KING := 6;
  PawnValueMidgame := 198;
  PawnValueEndgame := 258;
  RookValueMidgame := 1278
|}.
Proof. all: lia. Defined.

(** Modelled from the spec: the enumerators the data model fixes.  A
    draw is the score 0 and the depth of the horizon is 0; MOVE_NONE is
    the move that tests false, as [search.cpp] uses it in conditions. *)
Definition VALUE_ZERO : Value := 0.
Definition VALUE_DRAW : Value := 0.
Definition MOVE_NONE : Move := 0.
Definition DEPTH_ZERO : Depth := 0.

(** C++ tests a [Move] (or any enum) for truth by comparing with 0. *)
Definition truthy (x : Z) : bool := negb (x =? 0).

(** ** Bound kinds *)

(** Modelled from the spec: the four bound kinds, with
    [LOWER | UPPER == EXACT] bitwise. *)
Inductive ValueType :=
| VALUE_TYPE_NONE
| VALUE_TYPE_UPPER
| VALUE_TYPE_LOWER
| VALUE_TYPE_EXACT.

Definition vt_bits (t : ValueType) : Z :=
  match t with
  | VALUE_TYPE_NONE => 0
  | VALUE_TYPE_UPPER => 1
  | VALUE_TYPE_LOWER => 2
  | VALUE_TYPE_EXACT => Z.lor 1 2
  end.

(** [t & m], read as a condition. *)
Definition vt_and (t m : ValueType) : bool :=
  truthy (Z.land (vt_bits t) (vt_bits m)).

Definition vt_eqb (t m : ValueType) : bool := vt_bits t =? vt_bits m.

(** ** Transposition-table entries, as [search.cpp] reads them *)

Module TTEntry.
Record t := {
  move : Move;
  value : Value;
  type : ValueType;
  depth : Depth;
  static_value : Value;
  static_value_margin : Value
}.
End TTEntry.

Section Encoding.
Context {T : Types}.

(** Modelled from the spec: the two ends of the mate-score band, which
    types.h derives from VALUE_MATE and PLY_MAX; [value_to_uci] below
    prints a score as a mate from the same threshold on. *)
Definition VALUE_MATE_IN_PLY_MAX : Value := VALUE_MATE - PLY_MAX.
Definition VALUE_MATED_IN_PLY_MAX : Value := - VALUE_MATE + PLY_MAX.

(** Modelled from the spec: [value_mate_in] and [value_mated_in] are
    inline helpers of types.h; the score encoding of the UCI interface
    ("mate in (MATE - v + 1) / 2") fixes them as the distance of [v]
    from [+/- VALUE_MATE]. *)
Definition value_mate_in (ply : Z) : Value := VALUE_MATE - ply.
Definition value_mated_in (ply : Z) : Value := - VALUE_MATE + ply.

(** [value_to_tt] adjusts a mate score from "plies to mate from the
    root" to "plies to mate from the current ply". *)
Definition value_to_tt (v : Value) (ply : Z) : Value :=
  if v >=? VALUE_MATE_IN_PLY_MAX then v + ply
  else if v <=? VALUE_MATED_IN_PLY_MAX then v - ply
  else v.

(** [value_from_tt] is applied to the value read back from an entry. *)
Definition value_from_tt (v : Value) (ply : Z) : Value :=
  if v =? VALUE_NONE then v
  else if v >=? VALUE_MATE_IN_PLY_MAX then v - ply
  else if v <=? VALUE_MATED_IN_PLY_MAX then v + ply
  else v.

(** [ok_to_use_TT] decides whether a stored score may cut the node. *)
Definition ok_to_use_TT (tte : TTEntry.t) (depth : Depth) (beta : Value)
    (ply : Z) : bool :=
  let v := value_from_tt (TTEntry.value tte) ply in
  ((TTEntry.depth tte >=? depth)
   || (v >=? Z.max VALUE_MATE_IN_PLY_MAX beta)
   || (v <? Z.min VALUE_MATED_IN_PLY_MAX beta))
  && ((vt_and (TTEntry.type tte) VALUE_TYPE_LOWER && (v >=? beta))
      || (vt_and (TTEntry.type tte) VALUE_TYPE_UPPER && (v <? beta))).

(** [refine_eval] returns the stored score when its bound improves on
    the static evaluation. *)
Definition refine_eval (tte : TTEntry.t) (defaultEval : Value) (ply : Z)
    : Value :=
  let v := value_from_tt (TTEntry.value tte) ply in
  if (vt_and (TTEntry.type tte) VALUE_TYPE_LOWER && (v >=? defaultEval))
     || (vt_and (TTEntry.type tte) VALUE_TYPE_UPPER && (v <? defaultEval))
  then v else defaultEval.

(** The reading of section 4.1 of the specification: a score is
    outside the ordinary band when it is a mate score for either side. *)
Definition outside_ordinary_band (v : Value) : Prop :=
  VALUE_MATE_IN_PLY_MAX <= v \/ v <= VALUE_MATED_IN_PLY_MAX.

Definition ok_to_use_TT_spec (tte : TTEntry.t) (depth : Depth)
    (beta : Value) (ply : Z) : Prop :=
  let v := value_from_tt (TTEntry.value tte) ply in
  (depth <= TTEntry.depth tte \/ outside_ordinary_band v)
  /\ ((vt_and (TTEntry.type tte) VALUE_TYPE_LOWER = true /\ beta <= v)
      \/ (vt_and (TTEntry.type tte) VALUE_TYPE_UPPER = true /\ v < beta)).

End Encoding.

(** ** The search stack and the collaborators of a node *)

Inductive NodeType := NonPV | PV.

Definition is_pv (n : NodeType) : bool :=
  match n with PV => true | NonPV => false end.

(** One frame of [SearchStack]; [pv] and [sp] are pointers and are not
    part of the scalar state. *)
Module SearchStack.
Record t := {
  ply : Z;
  currentMove : Move;
  excludedMove : Move;
  killers0 : Move;
  killers1 : Move;
  mateKiller : Move;
  eval : Value;
  evalMargin : Value;
  reduction : Depth;
  skipNullMove : bool;
  brokenThreat : bool
}.

Definition set_ply (x : Z) (s : t) : t :=
  {| ply := x; currentMove := currentMove s;
     excludedMove := excludedMove s; killers0 := killers0 s;
     killers1 := killers1 s; mateKiller := mateKiller s; eval := eval s;
     evalMargin := evalMargin s; reduction := reduction s;
     skipNullMove := skipNullMove s; brokenThreat := brokenThreat s |}.

Definition set_currentMove (m : Move) (s : t) : t :=
  {| ply := ply s; currentMove := m;
     excludedMove := excludedMove s; killers0 := killers0 s;
     killers1 := killers1 s; mateKiller := mateKiller s; eval := eval s;
     evalMargin := evalMargin s; reduction := reduction s;
     skipNullMove := skipNullMove s; brokenThreat := brokenThreat s |}.

Definition set_mateKiller (m : Move) (s : t) : t :=
  {| ply := ply s; currentMove := currentMove s;
     excludedMove := excludedMove s; killers0 := killers0 s;
     killers1 := killers1 s; mateKiller := m; eval := eval s;
     evalMargin := evalMargin s; reduction := reduction s;
     skipNullMove := skipNullMove s; brokenThreat := brokenThreat s |}.

(** [killers[1] = killers[0]; killers[0] = m]. *)
Definition push_killer (m : Move) (s : t) : t :=
  {| ply := ply s; currentMove := currentMove s;
     excludedMove := excludedMove s; killers0 := m;
     killers1 := killers0 s; mateKiller := mateKiller s; eval := eval s;
     evalMargin := evalMargin s; reduction := reduction s;
     skipNullMove := skipNullMove s; brokenThreat := brokenThreat s |}.

(** [ss->eval = e; ss->evalMargin = m]. *)
Definition set_eval (e m : Value) (s : t) : t :=
  {| ply := ply s; currentMove := currentMove s;
     excludedMove := excludedMove s; killers0 := killers0 s;
     killers1 := killers1 s; mateKiller := mateKiller s; eval := e;
     evalMargin := m; reduction := reduction s;
     skipNullMove := skipNullMove s; brokenThreat := brokenThreat s |}.
End SearchStack.

(** A call of [TT.store]; the replacement policy lives in tt.cpp, so a
    node's writes are kept as the list of its calls, latest first. *)
Record TTStore := {
  st_key : Key;
  st_value : Value;
  st_type : ValueType;
  st_depth : Depth;
  st_move : Move;
  st_static_value : Value;
  st_static_value_margin : Value
}.

(** What [Position], the evaluator and the move decoders of move.h
    answer at the node.  Queries about "the side to move" are one field
    each; queries about a move take the move. *)
Record Position := {
  in_check : bool;
  is_draw : bool;
  get_key : Key;
  get_exclusion_key : Key;
  evaluate : Value * Value;
  has_pawn_on_7th : bool;
  non_pawn_material : Value;
  can_castle : bool;
  is_stalemate : bool;
  move_is_pseudo_legal : Move -> bool;
  move_is_capture_or_promotion : Move -> bool;
  move_is_capture : Move -> bool;
  move_gives_check : Move -> bool;
  move_is_passed_pawn_push : Move -> bool;
  move_is_promotion : Move -> bool;
  move_is_ep : Move -> bool;
  move_is_ok : Move -> bool;
  move_from : Move -> Z;
  move_to : Move -> Z;
  see : Move -> Value;
  see_sign : Move -> Value;
  type_of_piece_on : Z -> Z;
  endgame_value_of_piece_on : Z -> Value;
  king_on_border : bool;
  queen_contact_check : Move -> bool;
  new_victims : Move -> list Z
}.

(** The engine-wide state a node reads: the transposition table, the
    stop and cutoff flags, the futility table filled by [init_search]
    (from floating-point logarithms), and the root move list. *)
Record Engine := {
  probe : Key -> option TTEntry.t;
  StopRequest : bool;
  cutoff_occurred : bool;
  FutilityMargins : Z -> Z -> Value;
  MultiPV : Z;
  Rml_pv0 : Z -> Move
}.

Module Locals.
Record t := {
  alpha : Value;
  beta : Value;
  oldAlpha : Value;
  excludedMove : Move;
  posKey : Key;
  ttMove : Move;
  tte : option TTEntry.t;
  refinedValue : Value;
  ss : SearchStack.t;
  tt_stores : list TTStore
}.
End Locals.

(** A step of the node either returns from [search] or falls through
    to the next step. *)
Inductive Flow :=
| Return (v : Value) (ss : SearchStack.t) (tt_stores : list TTStore)
| Continue (l : Locals.t).

Definition and_then (f : Flow) (k : Locals.t -> Flow) : Flow :=
  match f with
  | Return v s w => Return v s w
  | Continue l => k l
  end.

Notation "f >>> k" := (and_then f k) (at level 50, left associativity).

(** ** The main search node: Steps 1 to 7 of [search] *)

Section SearchHead.
Context {T : Types}.

(** The template parameters [PvNode] and [Root] ([SpNode] is [false]:
    a split-point node enters at [split_point_start]), the position,
    the engine state, the depth, and the frame [ss-1] of the caller. *)
Variable PvNode : NodeType.
Variable Root : bool.
Variable pos : Position.
Variable eng : Engine.
Variable depth : Depth.
Variable ss_prev : SearchStack.t.

(** [qsearch<NonPV>(pos, ss, alpha, beta, depth)] on this position and
    this frame: its value and the frame it leaves. *)
Variable qsearch_here :
  SearchStack.t -> Value -> Value -> Depth -> Value * SearchStack.t.

Definition RazorDepth : Depth := 4 * ONE_PLY.

Definition razor_margin (d : Depth) : Value := 0x200 + 0x10 * d.

Definition futility_margin (d : Depth) (mn : Z) : Value :=
  if d <? 7 * ONE_PLY
  then FutilityMargins eng (Z.max d 1) (Z.min mn 63)
  else 2 * VALUE_INFINITE.

(** Entry of [search]: [oldAlpha = alpha], [ss->ply = (ss-1)->ply + 1],
    and Step 1, which clears [ss->currentMove].  The locals the C++
    code leaves unset until Step 4 are given their cleared value. *)
Definition search_enter (alpha beta : Value) (ss : SearchStack.t)
    : Locals.t :=
  {| Locals.alpha := alpha;
     Locals.beta := beta;
     Locals.oldAlpha := alpha;
     Locals.excludedMove := MOVE_NONE;
     Locals.posKey := 0;
     Locals.ttMove := MOVE_NONE;
     Locals.tte := None;
     Locals.refinedValue := - VALUE_INFINITE;
     Locals.ss :=
       SearchStack.set_currentMove MOVE_NONE
         (SearchStack.set_ply (SearchStack.ply ss_prev + 1) ss);
     Locals.tt_stores := [] |}.

Definition with_window (a b : Value) (l : Locals.t) : Locals.t :=
  {| Locals.alpha := a;
     Locals.beta := b;
     Locals.oldAlpha := Locals.oldAlpha l;
     Locals.excludedMove := Locals.excludedMove l;
     Locals.posKey := Locals.posKey l;
     Locals.ttMove := Locals.ttMove l;
     Locals.tte := Locals.tte l;
     Locals.refinedValue := Locals.refinedValue l;
     Locals.ss := Locals.ss l;
     Locals.tt_stores := Locals.tt_stores l |}.

Definition with_probe (ex : Move) (k : Key) (m : Move)
    (e : option TTEntry.t) (l : Locals.t) : Locals.t :=
  {| Locals.alpha := Locals.alpha l;
     Locals.beta := Locals.beta l;
     Locals.oldAlpha := Locals.oldAlpha l;
     Locals.excludedMove := ex;
     Locals.posKey := k;
     Locals.ttMove := m;
     Locals.tte := e;
     Locals.refinedValue := Locals.refinedValue l;
     Locals.ss := Locals.ss l;
     Locals.tt_stores := Locals.tt_stores l |}.

Definition with_eval (rv : Value) (s : SearchStack.t)
    (w : list TTStore) (l : Locals.t) : Locals.t :=
  {| Locals.alpha := Locals.alpha l;
     Locals.beta := Locals.beta l;
     Locals.oldAlpha := Locals.oldAlpha l;
     Locals.excludedMove := Locals.excludedMove l;
     Locals.posKey := Locals.posKey l;
     Locals.ttMove := Locals.ttMove l;
     Locals.tte := Locals.tte l;
     Locals.refinedValue := rv;
     Locals.ss := s;
     Locals.tt_stores := w |}.

(** Steps 2 and 3 (skipped at the root): aborted search and immediate
    draw, then mate distance pruning. *)
Definition step2_3 (l : Locals.t) : Flow :=
  if Root then Continue l
  else if StopRequest eng
          || cutoff_occurred eng
          || is_draw pos
          || (SearchStack.ply (Locals.ss l) >? PLY_MAX)
  then Return VALUE_DRAW (Locals.ss l) (Locals.tt_stores l)
  else
    let alpha :=
      Z.max (value_mated_in (SearchStack.ply (Locals.ss l)))
            (Locals.alpha l) in
    let beta :=
      Z.min (value_mate_in (SearchStack.ply (Locals.ss l) + 1))
            (Locals.beta l) in
    if alpha >=? beta
    then Return alpha (Locals.ss l) (Locals.tt_stores l)
    else Continue (with_window alpha beta l).

(** The entry must agree with the in-check status of the position:
    a static value and margin when not in check, none when in check. *)
Definition static_value_mismatch (inCheck : bool) (e : TTEntry.t)
    : bool :=
  (negb inCheck
   && ((TTEntry.static_value e =? VALUE_NONE)
       || (TTEntry.static_value_margin e =? VALUE_NONE)))
  || (inCheck
      && (negb (TTEntry.static_value e =? VALUE_NONE)
          || negb (TTEntry.static_value_margin e =? VALUE_NONE))).

(** [if (tte && mismatch) tte = NULL;] *)
Definition drop_mismatch (inCheck : bool) (e : option TTEntry.t)
    : option TTEntry.t :=
  match e with
  | Some x => if static_value_mismatch inCheck x then None else Some x
  | None => None
  end.

(** The move of a probed entry, kept only when pseudo-legal; an entry
    with a move that is not is dropped whole. *)
Definition probed_move (e : option TTEntry.t)
    : Move * option TTEntry.t :=
  match e with
  | Some x =>
      if truthy (TTEntry.move x)
      then if move_is_pseudo_legal pos (TTEntry.move x)
           then (TTEntry.move x, Some x)
           else (MOVE_NONE, None)
      else (MOVE_NONE, Some x)
  | None => (MOVE_NONE, None)
  end.

(** The key of the probe: a node searched with an excluded move uses a
    key of its own. *)
Definition search_key (excludedMove : Move) : Key :=
  if truthy excludedMove
  then Z.lxor (get_exclusion_key pos) excludedMove
  else get_key pos.

(** Step 4, first half: the key, the probe, [ttMove], and the check of
    the stored static evaluation. *)
Definition tt_lookup (l : Locals.t) : Locals.t :=
  let excludedMove := SearchStack.excludedMove (Locals.ss l) in
  let posKey := search_key excludedMove in
  let tte := probe eng posKey in
  let '(ttMove, tte) :=
    if Root then (Rml_pv0 eng 0, tte) else probed_move tte in
  with_probe excludedMove posKey ttMove
    (drop_mismatch (in_check pos) tte) l.

(** The condition of the early return of Step 4. *)
Definition tt_cutoff_ok (l : Locals.t) (e : TTEntry.t) : bool :=
  negb Root
  && negb (TTEntry.value e =? VALUE_NONE)
  && (if is_pv PvNode
      then (TTEntry.depth e >=? depth)
           && vt_eqb (TTEntry.type e) VALUE_TYPE_EXACT
           && (TTEntry.value e >? Locals.alpha l)
           && (TTEntry.value e <? Locals.beta l)
      else ok_to_use_TT e depth (Locals.beta l)
             (SearchStack.ply (Locals.ss l))).

(** Step 4, second half: on a usable entry refresh it, record the move
    in the frame and return the stored score. *)
Definition tt_cutoff (l : Locals.t) : Flow :=
  match Locals.tte l with
  | Some e =>
      if tt_cutoff_ok l e then
        let ttMove := Locals.ttMove l in
        let w :=
          {| st_key := Locals.posKey l;
             st_value := TTEntry.value e;
             st_type := TTEntry.type e;
             st_depth := TTEntry.depth e;
             st_move := TTEntry.move e;
             st_static_value := TTEntry.static_value e;
             st_static_value_margin := TTEntry.static_value_margin e |}
          :: Locals.tt_stores l in
        let s1 := SearchStack.set_currentMove ttMove (Locals.ss l) in
        let s2 :=
          if TTEntry.value e >=? VALUE_MATE_IN_PLY_MAX
          then SearchStack.set_mateKiller ttMove s1 else s1 in
        let s3 :=
          if (TTEntry.value e >=? Locals.beta l)
             && truthy ttMove
             && negb (move_is_capture_or_promotion pos ttMove)
             && negb (ttMove =? SearchStack.killers0 s2)
          then SearchStack.push_killer ttMove s2 else s2 in
        Return (value_from_tt (TTEntry.value e) (SearchStack.ply s3))
               s3 w
      else Continue l
  | None => Continue l
  end.

(** Step 5: the static evaluation.  [update_gains] writes the History
    table only, which this node does not read again before Step 10. *)
Definition step5 (l : Locals.t) : Flow :=
  if in_check pos then
    Continue
      (with_eval (Locals.refinedValue l)
         (SearchStack.set_eval VALUE_NONE VALUE_NONE (Locals.ss l))
         (Locals.tt_stores l) l)
  else
    match Locals.tte l with
    | Some e =>
        let ev := TTEntry.static_value e in
        let s := SearchStack.set_eval ev (TTEntry.static_value_margin e)
                   (Locals.ss l) in
        let rv :=
          if negb (TTEntry.value e =? VALUE_NONE)
          then refine_eval e ev (SearchStack.ply s) else ev in
        Continue (with_eval rv s (Locals.tt_stores l) l)
    | None =>
        let '(ev, margin) := evaluate pos in
        let s := SearchStack.set_eval ev margin (Locals.ss l) in
        let w :=
          {| st_key := Locals.posKey l;
             st_value := VALUE_NONE;
             st_type := VALUE_TYPE_NONE;
             st_depth := DEPTH_NONE;
             st_move := MOVE_NONE;
             st_static_value := ev;
             st_static_value_margin := margin |}
          :: Locals.tt_stores l in
        Continue (with_eval ev s w l)
    end.

(** The guard of Step 6. *)
Definition razoring_applies (l : Locals.t) : bool :=
  negb (is_pv PvNode)
  && (depth <? RazorDepth)
  && negb (in_check pos)
  && (Locals.refinedValue l + razor_margin depth <? Locals.beta l)
  && (Locals.ttMove l =? MOVE_NONE)
  && negb (truthy (Locals.excludedMove l))
  && (Z.abs (Locals.beta l) <? VALUE_MATE_IN_PLY_MAX)
  && negb (has_pawn_on_7th pos).

(** Step 6: razoring. *)
Definition step6 (l : Locals.t) : Flow :=
  if razoring_applies l then
    let rbeta := Locals.beta l - razor_margin depth in
    let '(v, s) := qsearch_here (Locals.ss l) (rbeta - 1) rbeta DEPTH_ZERO in
    if v <? rbeta
    then Return v s (Locals.tt_stores l)
    else Continue (with_eval (Locals.refinedValue l) s
                     (Locals.tt_stores l) l)
  else Continue l.

(** Step 7: static null move pruning. *)
Definition step7 (l : Locals.t) : Flow :=
  if negb (is_pv PvNode)
     && negb (SearchStack.skipNullMove (Locals.ss l))
     && (depth <? RazorDepth)
     && negb (in_check pos)
     && (Locals.refinedValue l - futility_margin depth 0 >=? Locals.beta l)
     && (Z.abs (Locals.beta l) <? VALUE_MATE_IN_PLY_MAX)
     && truthy (non_pawn_material pos)
  then Return (Locals.refinedValue l - futility_margin depth 0)
              (Locals.ss l) (Locals.tt_stores l)
  else Continue l.

(** Steps 4 to 7 once the probe has been settled. *)
Definition search_after_lookup (l : Locals.t) : Flow :=
  tt_cutoff l >>> step5 >>> step6 >>> step7.

(** [search] from its entry to the end of Step 7. *)
Definition search_head (alpha beta : Value) (ss : SearchStack.t) : Flow :=
  step2_3 (search_enter alpha beta ss)
    >>> (fun l => search_after_lookup (tt_lookup l)).

(** [search] from its entry to the end of Step 5. *)
Definition search_before_razoring (alpha beta : Value)
    (ss : SearchStack.t) : Flow :=
  step2_3 (search_enter alpha beta ss)
    >>> (fun l => tt_cutoff (tt_lookup l))
    >>> step5.

End SearchHead.

(** ** The main search node: the move loop and Steps 19 and 20 *)

(** What the body of the move loop may change, once a move has been
    counted. *)
Module Scores.
Record t := {
  alpha : Value;
  bestValue : Value;
  bestMove : Move;
  ss : SearchStack.t
}.
End Scores.

Section SearchTail.
Context {T : Types}.

Variable Root : bool.
Variable pos : Position.
Variable eng : Engine.
Variable depth : Depth.

(** [(ss-2)->currentMove], read by the excluded-move filter. *)
Variable prev2_currentMove : Move.

(** Everything the loop does with a counted move after the check
    filter: extensions, pruning, the child searches, the update of
    [bestValue], [alpha], [bestMove] and of the frame, the root
    bookkeeping and the split.  It is given the move and the value of
    [moveCount]; it answers [true] when the root breaks out of the loop
    on [StopRequest]. *)
Variable visit : Move -> Z -> Scores.t -> Scores.t * bool.

(** [StopRequest] and [cutoff_occurred()] as read by Step 20. *)
Variable stop_at_end : bool.
Variable cutoff_at_end : bool.

(** The moves a non-split-point node skips without counting them when
    an excluded move is set. *)
Definition excluded_class (excludedMove move : Move) : bool :=
  negb (excludedMove =? MOVE_NONE)
  && ((move =? excludedMove)
      || (excludedMove
            =? Z.shiftl 65 (type_of_piece_on pos (move_from pos move) - 1))
      || (negb (type_of_piece_on pos (move_from pos move) =? KING)
          && move_is_ok pos prev2_currentMove
          && (move_to pos move =? move_from pos prev2_currentMove))).

(** Step 10.  [mp] lists the moves [get_next_move] hands out before
    MOVE_NONE, each with the answer of [cutoff_occurred()] at the loop
    test that fetched it. *)
Fixpoint search_moves (beta : Value) (excludedMove : Move)
    (mp : list (Move * bool)) (moveCount : Z) (sc : Scores.t)
    : Z * Scores.t :=
  match mp with
  | [] => (moveCount, sc)
  | (move, cutoff) :: rest =>
      if negb (Scores.bestValue sc <? beta) then (moveCount, sc)
      else if cutoff then (moveCount, sc)
      else if excluded_class excludedMove move
      then search_moves beta excludedMove rest moveCount sc
      else
        let moveCount := moveCount + 1 in
        let move :=
          if Root && (MultiPV eng >? 1)
          then Rml_pv0 eng (moveCount - 1) else move in
        if negb (excludedMove =? MOVE_NONE) && move_gives_check pos move
        then search_moves beta excludedMove rest (moveCount - 1) sc
        else
          let '(sc', stop) := visit move moveCount sc in
          if stop then (moveCount, sc')
          else search_moves beta excludedMove rest moveCount sc'
  end.

Definition bound_type (bestValue oldAlpha beta : Value) : ValueType :=
  if bestValue <=? oldAlpha then VALUE_TYPE_UPPER
  else if bestValue >=? beta then VALUE_TYPE_LOWER
  else VALUE_TYPE_EXACT.

(** Steps 19 and 20 and the final return, for [SpNode == false]. *)
Definition search_finish (l : Locals.t) (moveCount : Z) (sc : Scores.t)
    : Value * SearchStack.t * list TTStore :=
  let bestValue := Scores.bestValue sc in
  let bestMove := Scores.bestMove sc in
  let s := SearchStack.set_currentMove bestMove (Scores.ss sc) in
  if moveCount =? 0 then
    ((if truthy (Locals.excludedMove l) then Locals.oldAlpha l
      else if in_check pos then value_mated_in (SearchStack.ply s)
      else VALUE_DRAW),
     s, Locals.tt_stores l)
  else if negb stop_at_end && negb cutoff_at_end then
    let w :=
      {| st_key := Locals.posKey l;
         st_value := value_to_tt bestValue (SearchStack.ply s);
         st_type := bound_type bestValue (Locals.oldAlpha l) (Locals.beta l);
         st_depth := if SearchStack.brokenThreat s then DEPTH_NONE else depth;
         st_move := bestMove;
         st_static_value := SearchStack.eval s;
         st_static_value_margin := SearchStack.evalMargin s |}
      :: Locals.tt_stores l in
    let s1 :=
      if bestValue >=? VALUE_MATE_IN_PLY_MAX
      then SearchStack.set_mateKiller bestMove s else s in
    let s2 :=
      if (bestValue >=? Locals.beta l)
         && negb (move_is_capture_or_promotion pos bestMove)
         && negb (bestMove =? SearchStack.killers0 s1)
      then SearchStack.push_killer bestMove s1 else s1 in
    (bestValue, s2, w)
  else (bestValue, s, Locals.tt_stores l).

(** [search] from [split_point_start] to its return, for a node that
    is not a split point: [l] holds the locals as Steps 1 to 9 left
    them. *)
Definition search_tail (l : Locals.t) (mp : list (Move * bool))
    : Value * SearchStack.t * list TTStore :=
  let sc0 :=
    {| Scores.alpha := Locals.alpha l;
       Scores.bestValue := - VALUE_INFINITE;
       Scores.bestMove := MOVE_NONE;
       Scores.ss := Locals.ss l |} in
  let '(moveCount, sc) :=
    search_moves (Locals.beta l) (Locals.excludedMove l) mp 0 sc0 in
  search_finish l moveCount sc.

End SearchTail.

(** ** One node of the quiescence search *)

Module QState.
Record t := {
  alpha : Value;
  bestValue : Value;
  bestMove : Move;
  ss : SearchStack.t
}.
End QState.

Section QSearch.
Context {T : Types}.

Variable PvNode : NodeType.
Variable pos : Position.
Variable eng : Engine.
Variable ss_prev : SearchStack.t.

(** The moves of [MovePicker mp(pos, ttMove, depth, H)], in order. *)
Variable picker : Move -> Depth -> list Move.

(** [qsearch<PvNode>(pos, ss+1, a, b, d)] after [pos.do_move(move)]. *)
Variable child : Move -> Value -> Value -> Depth -> Value.

Definition FutilityMarginQS : Value := 0x80.

Definition check_is_dangerous (move : Move) (futilityBase beta : Value)
    : bool :=
  if king_on_border pos then true
  else if queen_contact_check pos move then true
  else existsb
         (fun victimSq =>
            futilityBase + endgame_value_of_piece_on pos victimSq >=? beta)
         (new_victims pos move).

Definition with_bestValue (v : Value) (q : QState.t) : QState.t :=
  {| QState.alpha := QState.alpha q; QState.bestValue := v;
     QState.bestMove := QState.bestMove q; QState.ss := QState.ss q |}.

(** The body of the move loop of [qsearch] for one move. *)
Definition qsearch_move (inCheck enoughMaterial : bool)
    (futilityBase beta : Value) (ttMove : Move) (depth : Depth)
    (move : Move) (q : QState.t) : QState.t :=
  let givesCheck := move_gives_check pos move in
  let futile :=
    negb (is_pv PvNode) && negb inCheck && negb givesCheck
    && negb (move =? ttMove) && enoughMaterial
    && negb (move_is_promotion pos move)
    && negb (move_is_passed_pawn_push pos move) in
  let futilityValue :=
    futilityBase + endgame_value_of_piece_on pos (move_to pos move)
    + (if move_is_ep pos move then PawnValueEndgame else VALUE_ZERO) in
  if futile && (futilityValue <? beta) then
    if futilityValue >? QState.bestValue q
    then with_bestValue futilityValue q else q
  else if futile && (futilityBase <? beta) && (see pos move <=? 0) then q
  else
    let evasionPrunable :=
      inCheck
      && (QState.bestValue q >? VALUE_MATED_IN_PLY_MAX)
      && negb (move_is_capture pos move)
      && negb (can_castle pos) in
    if negb (is_pv PvNode)
       && (negb inCheck || evasionPrunable)
       && negb (move =? ttMove)
       && negb (move_is_promotion pos move)
       && (see_sign pos move <? 0)
    then q
    else if negb (is_pv PvNode)
            && negb inCheck
            && givesCheck
            && negb (move =? ttMove)
            && negb (move =? SearchStack.mateKiller (QState.ss q))
            && negb (SearchStack.currentMove ss_prev =? MOVE_NULL)
            && negb (move_is_capture_or_promotion pos move)
            && (SearchStack.eval (QState.ss q)
                  + Z.quot PawnValueMidgame 6 <? beta)
            && negb (check_is_dangerous move futilityBase beta)
    then q
    else
      let s := SearchStack.set_currentMove move (QState.ss q) in
      let value :=
        - child move (- beta) (- QState.alpha q) (depth - ONE_PLY) in
      if value >? QState.bestValue q then
        if value >? QState.alpha q then
          {| QState.alpha := value;
             QState.bestValue := value;
             QState.bestMove := move;
             QState.ss :=
               if value >=? VALUE_MATE_IN_PLY_MAX
               then SearchStack.set_mateKiller move s else s |}
        else
          {| QState.alpha := QState.alpha q;
             QState.bestValue := value;
             QState.bestMove := QState.bestMove q;
             QState.ss := s |}
      else
        {| QState.alpha := QState.alpha q;
           QState.bestValue := QState.bestValue q;
           QState.bestMove := QState.bestMove q;
           QState.ss := s |}.

(** [while (alpha < beta && (move = mp.get_next_move()) != MOVE_NONE)]. *)
Fixpoint qsearch_moves (inCheck enoughMaterial : bool)
    (futilityBase beta : Value) (ttMove : Move) (depth : Depth)
    (mp : list Move) (q : QState.t) : QState.t :=
  match mp with
  | [] => q
  | move :: rest =>
      if QState.alpha q <? beta
      then qsearch_moves inCheck enoughMaterial futilityBase beta ttMove
             depth rest
             (qsearch_move inCheck enoughMaterial futilityBase beta ttMove
                depth move q)
      else q
  end.

(** The end of [qsearch]: the mate test, the store, the return. *)
Definition qsearch_finish (inCheck : bool) (oldAlpha beta : Value)
    (ttDepth : Depth) (w : list TTStore) (q : QState.t)
    : Value * SearchStack.t * list TTStore :=
  let s := SearchStack.set_currentMove (QState.bestMove q) (QState.ss q) in
  let bestValue := QState.bestValue q in
  if inCheck && (bestValue =? - VALUE_INFINITE)
  then (value_mated_in (SearchStack.ply s), s, w)
  else
    (bestValue, s,
     {| st_key := get_key pos;
        st_value := value_to_tt bestValue (SearchStack.ply s);
        st_type :=
          if bestValue <=? oldAlpha then VALUE_TYPE_UPPER
          else if bestValue >=? beta then VALUE_TYPE_LOWER
          else VALUE_TYPE_EXACT;
        st_depth := ttDepth;
        st_move := QState.bestMove q;
        st_static_value := SearchStack.eval s;
        st_static_value_margin := SearchStack.evalMargin s |} :: w).

(** The probe of [qsearch]: the move of the entry and the entry, after
    the pseudo-legality test and the check of its static evaluation. *)
Definition qsearch_lookup : Move * option TTEntry.t :=
  let '(ttMove, tte) := probed_move pos (probe eng (get_key pos)) in
  (ttMove, drop_mismatch (in_check pos) tte).

(** The early return on a usable entry, at non-PV nodes only: the
    value returned and the frame left. *)
Definition qsearch_tt_cutoff (beta : Value) (ttDepth : Depth)
    (ss : SearchStack.t) (ttMove : Move) (tte : option TTEntry.t)
    : option (Value * SearchStack.t) :=
  match tte with
  | Some e =>
      if negb (is_pv PvNode)
         && negb (TTEntry.value e =? VALUE_NONE)
         && ok_to_use_TT e ttDepth beta (SearchStack.ply ss)
      then
        let s1 := SearchStack.set_currentMove ttMove ss in
        let s2 :=
          if TTEntry.value e >=? VALUE_MATE_IN_PLY_MAX
          then SearchStack.set_mateKiller ttMove s1 else s1 in
        Some (value_from_tt (TTEntry.value e) (SearchStack.ply s2), s2)
      else None
  | None => None
  end.

(** The move loop of a node in check: no static evaluation, and
    [bestValue] starts at [-VALUE_INFINITE]. *)
Definition qsearch_evasions (alpha beta : Value) (depth : Depth)
    (ss : SearchStack.t) (ttMove : Move) : QState.t :=
  qsearch_moves true false (- VALUE_INFINITE) beta ttMove depth
    (picker ttMove depth)
    {| QState.alpha := alpha;
       QState.bestValue := - VALUE_INFINITE;
       QState.bestMove := MOVE_NONE;
       QState.ss := SearchStack.set_eval VALUE_NONE VALUE_NONE ss |}.

(** [qsearch] from the probe on; [ss] already carries the ply. *)
Definition qsearch_after_lookup (alpha beta : Value) (depth : Depth)
    (ss : SearchStack.t) (ttMove : Move) (tte : option TTEntry.t)
    : Value * SearchStack.t * list TTStore :=
  let oldAlpha := alpha in
  let inCheck := in_check pos in
  let ttDepth :=
    if inCheck || (depth >=? DEPTH_QS_CHECKS)
    then DEPTH_QS_CHECKS else DEPTH_QS_NO_CHECKS in
  match qsearch_tt_cutoff beta ttDepth ss ttMove tte with
  | Some (v, s) => (v, s, [])
  | None =>
      if inCheck then
        qsearch_finish inCheck oldAlpha beta ttDepth []
          (qsearch_evasions alpha beta depth ss ttMove)
      else if is_pv PvNode && is_stalemate pos then (VALUE_DRAW, ss, [])
      else
        let '(s, bestValue) :=
          match tte with
          | Some e =>
              let s := SearchStack.set_eval (TTEntry.static_value e)
                         (TTEntry.static_value_margin e) ss in
              (s,
               if negb (TTEntry.value e =? VALUE_NONE)
                  && (negb (is_pv PvNode)
                      || vt_eqb (TTEntry.type e) VALUE_TYPE_EXACT
                      || (Z.abs (TTEntry.value e) >=? VALUE_KNOWN_WIN))
               then refine_eval e (SearchStack.eval s) (SearchStack.ply s)
               else TTEntry.static_value e)
          | None =>
              let '(ev, margin) := evaluate pos in
              (SearchStack.set_eval ev margin ss, ev)
          end in
        if bestValue >=? beta then
          (bestValue, s,
           match tte with
           | Some _ => []
           | None =>
               [ {| st_key := get_key pos;
                    st_value := VALUE_NONE;
                    st_type := VALUE_TYPE_NONE;
                    st_depth := DEPTH_NONE;
                    st_move := MOVE_NONE;
                    st_static_value := SearchStack.eval s;
                    st_static_value_margin := SearchStack.evalMargin s |} ]
           end)
        else
          let alpha :=
            if is_pv PvNode && (bestValue >? alpha) then bestValue else alpha in
          let futilityBase :=
            SearchStack.eval s + SearchStack.evalMargin s + FutilityMarginQS in
          let enoughMaterial := non_pawn_material pos >? RookValueMidgame in
          qsearch_finish inCheck oldAlpha beta ttDepth []
            (qsearch_moves inCheck enoughMaterial futilityBase beta ttMove depth
               (picker ttMove depth)
               {| QState.alpha := alpha;
                  QState.bestValue := bestValue;
                  QState.bestMove := MOVE_NONE;
                  QState.ss := s |})
  end.

(** [qsearch<PvNode>(pos, ss, alpha, beta, depth)]. *)
Definition qsearch (alpha beta : Value) (depth : Depth)
    (ss : SearchStack.t) : Value * SearchStack.t * list TTStore :=
  let ss :=
    SearchStack.set_ply (SearchStack.ply ss_prev + 1)
      (SearchStack.set_currentMove MOVE_NONE ss) in
  if (SearchStack.ply ss >? PLY_MAX) || is_draw pos
  then (VALUE_DRAW, ss, [])
  else
    let '(ttMove, tte) := qsearch_lookup in
    qsearch_after_lookup alpha beta depth ss ttMove tte.

End QSearch.

(** ** The driver: [think] and [id_loop] *)

(** A root move: the first two moves of its PV and its score. *)
Record RootMove := {
  pv0 : Move;
  pv1 : Move;
  pv_score : Value
}.

(** What [id_loop] hands back to [think]: the two moves, the lines it
    wrote to standard output, and the request flags as it leaves them. *)
Record IdResult := {
  id_bestMove : Move;
  id_ponderMove : Move;
  id_stdout : list string;
  id_StopRequest : bool;
  id_QuitRequest : bool
}.

Section Driver.
Context {T : Types}.

Definition string_of_Z (z : Z) : string :=
  NilZero.string_of_int (Z.to_int z).

(** [int(x)] of a 64-bit [x]: reduction to the 32-bit range. *)
Definition to_int32 (z : Z) : Z :=
  (z + 2 ^ 31) mod 2 ^ 32 - 2 ^ 31.

(** [value_to_uci]: "cp x" in centipawns, or "mate y" in moves. *)
Definition value_to_uci (v : Value) : string :=
  if Z.abs v <? VALUE_MATE - PLY_MAX
  then ("cp " ++ string_of_Z (Z.quot (v * 100) PawnValueMidgame))%string
  else ("mate "
        ++ string_of_Z
             (Z.quot (if v >? 0 then VALUE_MATE - v + 1
                      else - VALUE_MATE - v) 2))%string.

(** [speed_to_uci(nodes)] at search time [t]. *)
Definition speed_to_uci (nodes t : Z) : string :=
  (" nodes " ++ string_of_Z nodes
   ++ " nps "
   ++ string_of_Z (if t >? 0 then to_int32 (Z.quot (nodes * 1000) t) else 0)
   ++ " time " ++ string_of_Z t)%string.

(** [RootMoveList::init]: the legal moves, restricted to [searchMoves]
    when that list is not empty; each starts with the PV [m, NONE] and
    the score [-VALUE_INFINITE]. *)
Definition Rml_init (legal searchMoves : list Move) : list RootMove :=
  map (fun m =>
         {| pv0 := m; pv1 := MOVE_NONE; pv_score := - VALUE_INFINITE |})
      (filter (fun m =>
                 match searchMoves with
                 | [] => true
                 | _ => existsb (Z.eqb m) searchMoves
                 end)
              legal).

(** [id_loop], with the iterative-deepening loop proper and the skill
    adjustment that follows it as the parameter [deepen]; the pieces of
    the loop are [begin_iteration] and [aspiration_pass] below. *)
Definition id_loop (deepen : list RootMove -> IdResult)
    (in_check : bool) (legal searchMoves : list Move) : IdResult :=
  let Rml := Rml_init legal searchMoves in
  if (List.length Rml =? 0)%nat then
    {| id_bestMove := MOVE_NONE;
       id_ponderMove := MOVE_NONE;
       id_stdout :=
         [ ("info depth 0 score "
            ++ value_to_uci (if in_check then - VALUE_MATE
                             else VALUE_DRAW))%string ];
       id_StopRequest := false;
       id_QuitRequest := false |}
  else deepen Rml.

(** The standard output of [think] and its result [!QuitRequest].
    [bookMove] is the answer of the opening book, [wait_quits] tells
    whether [wait_for_stop_or_ponderhit] ends on "quit" or on the end
    of the input; [nodes] and [t] are the node count and the search
    time when the statistics line is printed.  The search log is a
    file of its own. *)
Definition think (OwnBook : bool) (bookMove : Move)
    (ponder infinite : bool) (wait_quits : bool)
    (move_to_uci : Move -> string) (nodes t : Z)
    (deepen : list RootMove -> IdResult)
    (in_check : bool) (legal searchMoves : list Move)
    : list string * bool :=
  if OwnBook && negb (bookMove =? MOVE_NONE) then
    ([ ("bestmove " ++ move_to_uci bookMove)%string ],
     negb (ponder && wait_quits))
  else
    let r := id_loop deepen in_check legal searchMoves in
    let waits := negb (id_StopRequest r) && (ponder || infinite) in
    let QuitRequest := id_QuitRequest r || (waits && wait_quits) in
    let has_ponder := negb (id_ponderMove r =? MOVE_NONE) in
    ((id_stdout r
      ++ [ ("info" ++ speed_to_uci nodes t)%string;
           ("bestmove " ++ move_to_uci (id_bestMove r)
            ++ (if has_ponder
                then " ponder " ++ move_to_uci (id_ponderMove r)
                else EmptyString))%string ])%list,
     negb QuitRequest).

(** *** The state of the deepening loop *)

End Driver.

Module Id.
Record t := {
  depth : Z;
  aspirationDelta : Z;
  alpha : Value;
  beta : Value;
  bestValues : Z -> Value;
  ValueDraw : Value;
  LastValue : Value;
  AspirationFailLow : bool;
  StopOnPonderhit : bool
}.
End Id.

(** What one call of [search<PV, false, true>] at the root gives back
    to the aspiration loop: its value, [StopRequest] as read after the
    PV has been written back, and the global [ValueDraw], which the
    root search may clear. *)
Record RootAnswer := {
  ans_value : Value;
  ans_StopRequest : bool;
  ans_ValueDraw : Value
}.

(** The outcome of one pass of the [do ... while] loop. *)
Inductive Pass :=
| Research (st : Id.t)
| Accept (st : Id.t) (value : Value).

Section Aspiration.
Context {T : Types}.

Variable MultiPV : Z.

(** [id_loop] before the first iteration.  The array [bestValues] is
    not initialised, and [ValueDraw] and [LastValue] are globals that
    keep what the previous search left. *)
Definition id_loop_init (bestValues : Z -> Value)
    (ValueDraw LastValue : Value) : Id.t :=
  {| Id.depth := 0;
     Id.aspirationDelta := 0;
     Id.alpha := - VALUE_INFINITE;
     Id.beta := VALUE_INFINITE;
     Id.bestValues := bestValues;
     Id.ValueDraw := ValueDraw;
     Id.LastValue := LastValue;
     Id.AspirationFailLow := false;
     Id.StopOnPonderhit := false |}.

(** The dynamic aspiration window computed from the last iterations:
    the new [aspirationDelta], [alpha] and [beta]. *)
Definition aspiration_window (depth : Z) (bestValues : Z -> Value)
    (aspirationDelta : Z) (alpha beta : Value) : Z * Value * Value :=
  if (MultiPV =? 1) && (depth >=? 5) then
    let prevDelta1 := bestValues (depth - 1) - bestValues (depth - 2) in
    let prevDelta2 := bestValues (depth - 2) - bestValues (depth - 3) in
    let aspirationDelta :=
      Z.min (Z.max (Z.abs prevDelta1 + Z.quot (Z.abs prevDelta2) 2) 16) 24 in
    let aspirationDelta := Z.quot (aspirationDelta + 7) 8 * 8 in
    let alpha :=
      Z.max (bestValues (depth - 1) - aspirationDelta) (- VALUE_INFINITE) in
    let beta :=
      Z.min (bestValues (depth - 1) + aspirationDelta) VALUE_INFINITE in
    if Z.abs (bestValues (depth - 1)) >=? VALUE_KNOWN_WIN
    then (aspirationDelta, - VALUE_INFINITE, VALUE_INFINITE)
    else (aspirationDelta, alpha, beta)
  else (aspirationDelta, alpha, beta).

(** The head of an iteration: [++depth], the two score memories, and
    the aspiration window. *)
Definition begin_iteration (st : Id.t) : Id.t :=
  let depth := Id.depth st + 1 in
  let bv := Id.bestValues st in
  let ValueDraw :=
    if (depth >=? 26)
       && (Z.abs (bv (depth - 1)) >=? 2 * PawnValueMidgame)
       && ((bv (depth - 1) - bv 20 >? 16)
           || (bv (depth - 1) - bv 20 <? -16))
    then bv (depth - 1) else VALUE_ZERO in
  let LastValue :=
    if (depth >=? 36)
       && (Z.abs (bv (depth - 1)) >=? 2 * PawnValueMidgame)
       && (Z.abs (bv (depth - 1)) <? VALUE_KNOWN_WIN)
       && (Z.abs (bv (depth - 1) - bv (depth - 10)) <=? 16)
    then Z.abs (bv (depth - 1)) else VALUE_NONE in
  let '(aspirationDelta, alpha, beta) :=
    aspiration_window depth bv (Id.aspirationDelta st)
      (Id.alpha st) (Id.beta st) in
  {| Id.depth := depth;
     Id.aspirationDelta := aspirationDelta;
     Id.alpha := alpha;
     Id.beta := beta;
     Id.bestValues := bv;
     Id.ValueDraw := ValueDraw;
     Id.LastValue := LastValue;
     Id.AspirationFailLow := Id.AspirationFailLow st;
     Id.StopOnPonderhit := Id.StopOnPonderhit st |}.

(** The score the loop goes on with: a result one point away from the
    previous iteration is replaced by the previous score while
    [LastValue] is set. *)
Definition settled_value (st : Id.t) (value : Value) : Value :=
  if negb (Id.LastValue st =? VALUE_NONE)
     && (Z.abs (value - Id.bestValues st (Id.depth st - 1)) =? 1)
  then Id.bestValues st (Id.depth st - 1) else value.

(** One pass of the aspiration loop, from the return of the root
    search to the loop test. *)
Definition aspiration_pass (st : Id.t) (a : RootAnswer) : Pass :=
  let depth := Id.depth st in
  let bv := Id.bestValues st in
  if ans_StopRequest a then
    Accept
      {| Id.depth := depth;
         Id.aspirationDelta := Id.aspirationDelta st;
         Id.alpha := Id.alpha st;
         Id.beta := Id.beta st;
         Id.bestValues := bv;
         Id.ValueDraw := ans_ValueDraw a;
         Id.LastValue := Id.LastValue st;
         Id.AspirationFailLow := Id.AspirationFailLow st;
         Id.StopOnPonderhit := Id.StopOnPonderhit st |}
      (ans_value a)
  else
    let value := settled_value st (ans_value a) in
    let ValueDraw :=
      if (depth >=? 26)
         && (ans_ValueDraw a =? VALUE_ZERO)
         && (Z.abs value >=? 2 * PawnValueMidgame)
         && ((value - bv 20 >? 16) || (value - bv 20 <? -16))
      then value else ans_ValueDraw a in
    let delta := Id.aspirationDelta st in
    if value >=? Id.beta st then
      let st' :=
        {| Id.depth := depth;
           Id.aspirationDelta := delta + Z.quot delta 2;
           Id.alpha := Id.alpha st;
           Id.beta := Z.min (Id.beta st + delta) VALUE_INFINITE;
           Id.bestValues := bv;
           Id.ValueDraw := ValueDraw;
           Id.LastValue := Id.LastValue st;
           Id.AspirationFailLow := Id.AspirationFailLow st;
           Id.StopOnPonderhit := Id.StopOnPonderhit st |} in
      if Z.abs value <? VALUE_KNOWN_WIN then Research st'
      else Accept st' value
    else if value <=? Id.alpha st then
      let st' :=
        {| Id.depth := depth;
           Id.aspirationDelta := delta + Z.quot delta 2;
           Id.alpha := Z.max (Id.alpha st - delta) (- VALUE_INFINITE);
           Id.beta := Id.beta st;
           Id.bestValues := bv;
           Id.ValueDraw := ValueDraw;
           Id.LastValue := Id.LastValue st;
           Id.AspirationFailLow := true;
           Id.StopOnPonderhit := false |} in
      if Z.abs value <? VALUE_KNOWN_WIN then Research st'
      else Accept st' value
    else
      Accept
        {| Id.depth := depth;
           Id.aspirationDelta := delta;
           Id.alpha := Id.alpha st;
           Id.beta := Id.beta st;
           Id.bestValues := bv;
           Id.ValueDraw := ValueDraw;
           Id.LastValue := Id.LastValue st;
           Id.AspirationFailLow := Id.AspirationFailLow st;
           Id.StopOnPonderhit := Id.StopOnPonderhit st |}
        value.

(** After the loop: [bestValues[depth] = value].  The early-stop rules
    that follow may latch [StopOnPonderhit]. *)
Definition end_iteration (st : Id.t) (value : Value)
    (StopOnPonderhit : bool) : Id.t :=
  {| Id.depth := Id.depth st;
     Id.aspirationDelta := Id.aspirationDelta st;
     Id.alpha := Id.alpha st;
     Id.beta := Id.beta st;
     Id.bestValues :=
       fun i => if i =? Id.depth st then value else Id.bestValues st i;
     Id.ValueDraw := Id.ValueDraw st;
     Id.LastValue := Id.LastValue st;
     Id.AspirationFailLow := Id.AspirationFailLow st;
     Id.StopOnPonderhit := StopOnPonderhit |}.

(** The states in which [id_loop] calls the root search: the first
    pass of the first iteration, a re-search after a pass that asked
    for one, and the first pass of the next iteration. *)
Inductive id_reach : Id.t -> Prop :=
| reach_first (bestValues : Z -> Value) (ValueDraw LastValue : Value) :
    id_reach (begin_iteration (id_loop_init bestValues ValueDraw LastValue))
| reach_research (st st' : Id.t) (a : RootAnswer) :
    id_reach st ->
    aspiration_pass st a = Research st' ->
    id_reach st'
| reach_next (st st' : Id.t) (a : RootAnswer) (value : Value)
    (StopOnPonderhit : bool) :
    id_reach st ->
    aspiration_pass st a = Accept st' value ->
    Id.depth st' < PLY_MAX ->
    id_reach (begin_iteration (end_iteration st' value StopOnPonderhit)).

(** The aspiration loop run on the successive answers of the root
    search: the state and the value it ends with and the answers left
    over, or nothing when the answers run out first. *)
Fixpoint aspiration_loop (answers : list RootAnswer) (st : Id.t)
    : option (Id.t * Value * list RootAnswer) :=
  match answers with
  | [] => None
  | a :: rest =>
      match aspiration_pass st a with
      | Research st' => aspiration_loop rest st'
      | Accept st' value => Some (st', value, rest)
      end
  end.

End Aspiration.

(** ** The aspiration window in the words of the specification *)

Definition clamp (x lo hi : Z) : Z := Z.max lo (Z.min x hi).

Definition round_up_to_8 (x : Z) : Z := 8 * ((x + 7) / 8).

Section AspirationSpec.
Context {T : Types}.

(** [aspirationDelta], [alpha] and [beta] at depth [d]: the sum of the
    last score change and half the one before, clamped to [16, 24] and
    rounded up to a multiple of 8, around the last score, and the full
    window when the last score is a known win. *)
Definition aspiration_window_spec (d : Z) (bestValues : Z -> Value)
    : Z * Value * Value :=
  let bestV := bestValues (d - 1) in
  let delta :=
    round_up_to_8
      (clamp (Z.abs (bestValues (d - 1) - bestValues (d - 2))
              + Z.abs (bestValues (d - 2) - bestValues (d - 3)) / 2)
             16 24) in
  if VALUE_KNOWN_WIN <=? Z.abs bestV
  then (delta, - VALUE_INFINITE, VALUE_INFINITE)
  else (delta,
        Z.max (bestV - delta) (- VALUE_INFINITE),
        Z.min (bestV + delta) VALUE_INFINITE).

(** What every state of the aspiration loop satisfies: the delta is
    not negative, the window is open unless aspiration is in use, and
    while [LastValue] is set the previous score is below a known win
    and at least 16 points inside the window, or the bound is open. *)
Definition window_open (MultiPV : Z) (st : Id.t) : Prop :=
  0 <= Id.aspirationDelta st
  /\ (MultiPV <> 1 ->
      Id.alpha st = - VALUE_INFINITE /\ Id.beta st = VALUE_INFINITE).

Definition window_inv (MultiPV : Z) (st : Id.t) : Prop :=
  window_open MultiPV st
  /\ (Id.LastValue st <> VALUE_NONE ->
      Z.abs (Id.bestValues st (Id.depth st - 1)) < VALUE_KNOWN_WIN
      /\ (Id.alpha st <= Id.bestValues st (Id.depth st - 1) - 16
          \/ Id.alpha st = - VALUE_INFINITE)
      /\ (Id.bestValues st (Id.depth st - 1) + 16 <= Id.beta st
          \/ Id.beta st = VALUE_INFINITE)).

End AspirationSpec.


(** ** Sample nodes

    A quiet middlegame position and an empty table, used to run the
    definitions above on concrete inputs. *)

Definition sample_position (check pawn7 : bool) : Position :=
  {| in_check := check;
     is_draw := false;
     get_key := 1001;
     get_exclusion_key := 2002;
     evaluate := (40, 16);
     has_pawn_on_7th := pawn7;
     non_pawn_material := 3000;
     can_castle := false;
     is_stalemate := false;
     move_is_pseudo_legal := fun _ => true;
     move_is_capture_or_promotion := fun _ => false;
     move_is_capture := fun _ => false;
     move_gives_check := fun _ => false;
     move_is_passed_pawn_push := fun _ => false;
     move_is_promotion := fun _ => false;
     move_is_ep := fun _ => false;
     move_is_ok := fun m => negb (m =? 0);
     move_from := fun m => Z.land (Z.shiftr m 6) 63;
     move_to := fun m => Z.land m 63;
     see := fun _ => 0;
     see_sign := fun _ => 0;
     type_of_piece_on := fun _ => 2;
     endgame_value_of_piece_on := fun _ => 0;
     king_on_border := false;
     queen_contact_check := fun _ => false;
     new_victims := fun _ => [] |}.

Definition quiet_position : Position := sample_position false false.

(** The same position with a pawn of the side to move on the seventh
    rank. *)
Definition pawn_on_7th_position : Position := sample_position false true.

(** The same position with the side to move in check. *)
Definition check_position : Position := sample_position true false.

(** An engine whose table answers every probe with [e]. *)
Definition engine_with (e : option TTEntry.t) : Engine :=
  {| probe := fun _ => e;
     StopRequest := false;
     cutoff_occurred := false;
     FutilityMargins := fun _ _ => 100;
     MultiPV := 1;
     Rml_pv0 := fun _ => 0 |}.

(** A cleared frame at the given ply. *)
Definition frame_at (ply : Z) : SearchStack.t :=
  {| SearchStack.ply := ply;
     SearchStack.currentMove := 0;
     SearchStack.excludedMove := 0;
     SearchStack.killers0 := 0;
     SearchStack.killers1 := 0;
     SearchStack.mateKiller := 0;
     SearchStack.eval := 0;
     SearchStack.evalMargin := 0;
     SearchStack.reduction := 0;
     SearchStack.skipNullMove := false;
     SearchStack.brokenThreat := false |}.

(** An entry that carries a bound and a static evaluation. *)
Definition bound_entry (v : Value) (t : ValueType) (d : Depth)
    (sv margin : Value) : TTEntry.t :=
  {| TTEntry.move := 0;
     TTEntry.value := v;
     TTEntry.type := t;
     TTEntry.depth := d;
     TTEntry.static_value := sv;
     TTEntry.static_value_margin := margin |}.

(** A quiescence search that fails low on every window. *)
Definition fail_low_qsearch (s : SearchStack.t) (alpha beta : Value)
    (d : Depth) : Value * SearchStack.t :=
  (alpha, s).

(** The locals of a node at [split_point_start] after a table miss. *)
Definition locals_at (alpha beta : Value) (excluded : Move) (ply : Z)
    : Locals.t :=
  {| Locals.alpha := alpha;
     Locals.beta := beta;
     Locals.oldAlpha := alpha;
     Locals.excludedMove := excluded;
     Locals.posKey := 1001;
     Locals.ttMove := 0;
     Locals.tte := None;
     Locals.refinedValue := 40;
     Locals.ss := frame_at ply;
     Locals.tt_stores := [] |}.

(** A loop body that searches nothing. *)
Definition idle_visit (m : Move) (moveCount : Z) (sc : Scores.t)
    : Scores.t * bool :=
  (sc, false).

(** A picker with the single move 796 and a child search that
    answers 25 for the opponent. *)
Definition one_move (ttMove : Move) (d : Depth) : list Move := [796].

Definition child_25 (m : Move) (alpha beta : Value) (d : Depth)
    : Value := 25.

(** A picker without moves and a child search that is never asked. *)
Definition no_moves (ttMove : Move) (d : Depth) : list Move := [].

Definition quiet_child (m : Move) (alpha beta : Value) (d : Depth)
    : Value := 0.

(** A printer of moves that writes the null move as "0000", and a
    deepening loop that is never entered. *)
Definition sample_move_to_uci (m : Move) : string :=
  if m =? 0 then "0000"%string else "e2e4"%string.

Definition no_deepening (Rml : list RootMove) : IdResult :=
  {| id_bestMove := 0;
     id_ponderMove := 0;
     id_stdout := [];
     id_StopRequest := false;
     id_QuitRequest := false |}.

(** An answer of the root search without stop request. *)
Definition answer (v : Value) : RootAnswer :=
  {| ans_value := v; ans_StopRequest := false; ans_ValueDraw := 0 |}.

(** The state at the head of the iteration that follows a pass which
    accepted the answer [v] (with [MultiPV == 1]). *)
Definition next_iteration {T : Types} (st : Id.t) (v : Value) : Id.t :=
  match aspiration_pass st (answer v) with
  | Accept st' value => begin_iteration 1 (end_iteration st' value false)
  | Research st' => st'
  end.

(** The fifth iteration after the scores 30, 35, 25 and 40: the delta
    is 24 and the window (16, 64). *)
Definition fifth_iteration : Id.t :=
  @next_iteration Stockfish21
    (@next_iteration Stockfish21
       (@next_iteration Stockfish21
          (@next_iteration Stockfish21
             (@begin_iteration Stockfish21 1
                (@id_loop_init Stockfish21 (fun _ => 0) 0 0))
             30)
          35)
       25)
    40.

(** A deep lower bound of 500 stored without static evaluation, as a
    node in check stores it, and the same bound with one. *)
Definition check_entry : TTEntry.t :=
  bound_entry 500 VALUE_TYPE_LOWER 10 30002 30002.

Definition quiet_entry : TTEntry.t :=
  bound_entry 500 VALUE_TYPE_LOWER 10 40 16.

(** ** Further functions of [search.cpp] *)

(** *** Principal variations *)

(** A PV lives in a [Move] buffer closed by MOVE_NONE.  [pv_moves] is
    what the readers of the file see in it, the loop
    [for (m = pv; *m != MOVE_NONE; m++)]: the moves before the first
    MOVE_NONE. *)
Fixpoint pv_moves (pv : list Move) : list Move :=
  match pv with
  | [] => []
  | m :: rest => if m =? MOVE_NONE then [] else m :: pv_moves rest
  end.

(** [update_pv(pv, move, childPv)]: the cells it writes into [pv], in
    order; [childPv] may be the null pointer. *)
Definition update_pv (move : Move) (childPv : option (list Move))
    : list Move :=
  move
  :: (match childPv with
      | Some child => pv_moves child
      | None => []
      end ++ [MOVE_NONE]).

(** *** Extensions *)

(** What [extension] asks about the move [m] and the side [c] to move. *)
Record ExtensionFacts := {
  ef_non_pawn_material : Value;    (* pos.non_pawn_material(c) *)
  ef_see_sign : Value;             (* pos.see_sign(m) *)
  ef_pawn_move : bool;             (* the piece on move_from(m) is a pawn *)
  ef_pawn_is_passed : bool;        (* pos.pawn_is_passed(c, move_to(m)) *)
  ef_relative_rank : Z;            (* relative_rank(c, move_to(m)) *)
  ef_queens : Z;                   (* pos.piece_count(c, QUEEN) *)
  ef_king_distance : Z;            (* distance of the enemy king to move_to(m) *)
  ef_captures_pawn : bool;         (* the piece on move_to(m) is a pawn *)
  ef_material_left : Value;        (* all non-pawn material minus the piece on move_to(m) *)
  ef_move_is_special : bool        (* move_is_special(m) *)
}.

Section Extension.
Context {T : Types}.

(** Enumerators of piece.h and square.h. *)
Variable QueenValueMidgame : Value.
Variable RANK_4 : Z.
Variable RANK_7 : Z.

(** The four tables, indexed by [PvNode]. *)
Definition CheckExtension (n : NodeType) : Depth :=
  match n with NonPV => Z.quot ONE_PLY 2 | PV => Z.quot ONE_PLY 1 end.

Definition PawnEndgameExtension (n : NodeType) : Depth :=
  match n with NonPV => DEPTH_ZERO | PV => Z.quot ONE_PLY 1 end.

Definition PawnPushTo7thExtension (n : NodeType) : Depth :=
  match n with NonPV => Z.quot ONE_PLY 2 | PV => Z.quot ONE_PLY 2 end.

Definition PassedPawnExtension (n : NodeType) : Depth :=
  match n with NonPV => DEPTH_ZERO | PV => Z.quot ONE_PLY 2 end.

(** [extension<PvNode>(pos, m, captureOrPromotion, moveIsCheck,
    &dangerous)]: the depth to add and the flag [dangerous]. *)
Definition extension (PvNode : NodeType) (f : ExtensionFacts)
    (captureOrPromotion moveIsCheck : bool) : Depth * bool :=
  let result := DEPTH_ZERO in
  let dangerous := moveIsCheck in
  let result :=
    if moveIsCheck
       && (ef_non_pawn_material f >=? QueenValueMidgame + RookValueMidgame)
       && (ef_see_sign f >=? 0)
    then result + CheckExtension PvNode else result in
  let '(result, dangerous) :=
    if ef_pawn_move f then
      let '(result, dangerous) :=
        if ef_pawn_is_passed f && (ef_relative_rank f >=? RANK_4) then
          let result := result + PassedPawnExtension PvNode in
          let result :=
            if ef_relative_rank f =? RANK_7
            then result + PawnPushTo7thExtension PvNode else result in
          (result, true)
        else (result, dangerous) in
      if truthy (ef_queens f) && (ef_king_distance f <=? 2)
      then (result, true) else (result, dangerous)
    else (result, dangerous) in
  let '(result, dangerous) :=
    if captureOrPromotion
       && negb (ef_captures_pawn f)
       && (ef_material_left f =? VALUE_ZERO)
       && negb (ef_move_is_special f)
    then (result + PawnEndgameExtension PvNode, true)
    else (result, dangerous) in
  (Z.min result ONE_PLY, dangerous).

End Extension.

(** *** The lookup tables of the pruning steps *)

Section Tables.
Context {T : Types}.

(** [MAX_MOVES] of move.h, and the two tables [init_search] fills from
    floating-point formulas: [FutilityMoveCounts[32]] and
    [Reductions[2][64][64]]. *)
Variable MAX_MOVES : Z.
Variable FutilityMoveCounts : Z -> Z.
Variable Reductions : NodeType -> Z -> Z -> Z.

Definition futility_move_count (d : Depth) : Z :=
  if d <? 16 * ONE_PLY then FutilityMoveCounts d else MAX_MOVES.

Definition reduction (PvNode : NodeType) (d : Depth) (mn : Z) : Depth :=
  Reductions PvNode (Z.min (Z.quot d 2) 63) (Z.min mn 63).

End Tables.

(** *** The polling interval chosen by [think] *)

(** [NodesBetweenPolls] from [Limits.maxNodes] and [Limits.time]. *)
Definition nodes_between_polls (maxNodes time : Z) : Z :=
  if truthy maxNodes then Z.min maxNodes 30000
  else if truthy time && (time <? 1000) then 1000
  else if truthy time && (time <? 5000) then 5000
  else 30000.

(** *** Writing the PV back to the table *)

(** One ply of a PV: the move, the key of the position it is played
    in, and what [TT.probe] answers for that key when the ply is
    reached. *)
Record PvPly := {
  pp_move : Move;
  pp_key : Key;
  pp_tte : option TTEntry.t
}.

Section InsertPv.
Context {T : Types}.

(** The body of the loop of [RootMove::insert_pv_in_tt] for one ply:
    the new value of [d] and the call of [TT.store], if any. *)
Definition insert_pv_step (d : Depth) (p : PvPly)
    : Depth * option TTStore :=
  let d :=
    match pp_tte p with
    | Some e =>
        if (TTEntry.move e =? pp_move p)
           && (TTEntry.depth e + ONE_PLY >=? d)
        then TTEntry.depth e else d - ONE_PLY
    | None => d - ONE_PLY
    end in
  (d,
   match pp_tte p with
   | None =>
       Some {| st_key := pp_key p;
               st_value := VALUE_NONE;
               st_type := VALUE_TYPE_NONE;
               st_depth := d;
               st_move := pp_move p;
               st_static_value := VALUE_NONE;
               st_static_value_margin := VALUE_NONE |}
   | Some e =>
       if negb (TTEntry.move e =? pp_move p) then
         if (TTEntry.depth e >=? d)
            && vt_eqb (TTEntry.type e) VALUE_TYPE_UPPER
         then
           Some {| st_key := pp_key p;
                   st_value := TTEntry.value e;
                   st_type := TTEntry.type e;
                   st_depth := TTEntry.depth e;
                   st_move := pp_move p;
                   st_static_value := TTEntry.static_value e;
                   st_static_value_margin :=
                     TTEntry.static_value_margin e |}
         else
           Some {| st_key := pp_key p;
                   st_value := VALUE_NONE;
                   st_type := VALUE_TYPE_NONE;
                   st_depth := d;
                   st_move := pp_move p;
                   st_static_value := TTEntry.static_value e;
                   st_static_value_margin :=
                     TTEntry.static_value_margin e |}
       else None
   end).

Fixpoint insert_pv_from (d : Depth) (pv : list PvPly)
    : list (option TTStore) :=
  match pv with
  | [] => []
  | p :: rest =>
      let '(d', w) := insert_pv_step d p in
      w :: insert_pv_from d' rest
  end.

(** [RootMove::insert_pv_in_tt]: for each ply of the PV, in order, the
    store it makes or none.  The PV has at least one move. *)
Definition insert_pv_in_tt (pv : list PvPly) : list (option TTStore) :=
  insert_pv_from DEPTH_NONE pv.

(** What the loop may do at one ply: nothing to an entry that holds the
    PV move, and otherwise a write that keeps the static evaluation and,
    of the score, at most an upper bound. *)
Definition pv_ply_kept (p : PvPly) (w : option TTStore) : Prop :=
  match pp_tte p, w with
  | Some e, None => TTEntry.move e = pp_move p
  | Some e, Some w =>
      TTEntry.move e <> pp_move p
      /\ st_key w = pp_key p
      /\ st_move w = pp_move p
      /\ st_static_value w = TTEntry.static_value e
      /\ st_static_value_margin w = TTEntry.static_value_margin e
      /\ ((st_value w = TTEntry.value e /\ st_type w = VALUE_TYPE_UPPER
           /\ TTEntry.type e = VALUE_TYPE_UPPER
           /\ st_depth w = TTEntry.depth e)
          \/ (st_value w = VALUE_NONE /\ st_type w = VALUE_TYPE_NONE))
  | None, Some w =>
      st_key w = pp_key p
      /\ st_move w = pp_move p
      /\ st_value w = VALUE_NONE
      /\ st_type w = VALUE_TYPE_NONE
      /\ st_static_value w = VALUE_NONE
      /\ st_static_value_margin w = VALUE_NONE
  | None, None => False
  end.

End InsertPv.

(** *** Polling *)

(** The flags [poll] reads and writes. *)
Module Flags.
Record t := {
  Limits_ponder : bool;
  QuitRequest : bool;
  StopRequest : bool;
  SendSearchedNodes : bool;
  lastInfoTime : Z
}.
End Flags.

(** What [poll] finds: whether input is waiting and the line read
    ([None] when [getline] fails), the search time, the flags of the
    driver it only reads, the budgets of the time manager and the
    limits of the "go" command, and the node count. *)
Record PollInput := {
  input_available : bool;
  command : option string;
  poll_time : Z;
  poll_StopOnPonderhit : bool;
  poll_FirstRootMove : bool;
  poll_AspirationFailLow : bool;
  available_time : Z;
  maximum_time : Z;
  useTimeManagement : bool;
  Limits_maxTime : Z;
  Limits_maxNodes : Z;
  nodes_searched : Z
}.

(** The first part of [poll]: the reaction to a line of input.  The
    answer [true] stands for the early [return] after "quit". *)
Definition poll_input (i : PollInput) (f : Flags.t) : Flags.t * bool :=
  if input_available i then
    match command i with
    | None =>
        ({| Flags.Limits_ponder := false;
            Flags.QuitRequest := true;
            Flags.StopRequest := true;
            Flags.SendSearchedNodes := Flags.SendSearchedNodes f;
            Flags.lastInfoTime := Flags.lastInfoTime f |}, true)
    | Some c =>
        if String.eqb c "quit" then
          ({| Flags.Limits_ponder := false;
              Flags.QuitRequest := true;
              Flags.StopRequest := true;
              Flags.SendSearchedNodes := Flags.SendSearchedNodes f;
              Flags.lastInfoTime := Flags.lastInfoTime f |}, true)
        else if String.eqb c "stop" then
          ({| Flags.Limits_ponder := false;
              Flags.QuitRequest := Flags.QuitRequest f;
              Flags.StopRequest := true;
              Flags.SendSearchedNodes := Flags.SendSearchedNodes f;
              Flags.lastInfoTime := Flags.lastInfoTime f |}, false)
        else if String.eqb c "ponderhit" then
          ({| Flags.Limits_ponder := false;
              Flags.QuitRequest := Flags.QuitRequest f;
              Flags.StopRequest :=
                if poll_StopOnPonderhit i then true
                else Flags.StopRequest f;
              Flags.SendSearchedNodes := Flags.SendSearchedNodes f;
              Flags.lastInfoTime := Flags.lastInfoTime f |}, false)
        else (f, false)
    end
  else (f, false).

(** The second part: the bookkeeping of the one-second info line. *)
Definition poll_info (t : Z) (f : Flags.t) : Flags.t :=
  if t <? 1000 then
    {| Flags.Limits_ponder := Flags.Limits_ponder f;
       Flags.QuitRequest := Flags.QuitRequest f;
       Flags.StopRequest := Flags.StopRequest f;
       Flags.SendSearchedNodes := Flags.SendSearchedNodes f;
       Flags.lastInfoTime := 0 |}
  else if Flags.lastInfoTime f >? t then
    {| Flags.Limits_ponder := Flags.Limits_ponder f;
       Flags.QuitRequest := Flags.QuitRequest f;
       Flags.StopRequest := Flags.StopRequest f;
       Flags.SendSearchedNodes := Flags.SendSearchedNodes f;
       Flags.lastInfoTime := 0 |}
  else if t - Flags.lastInfoTime f >=? 1000 then
    {| Flags.Limits_ponder := Flags.Limits_ponder f;
       Flags.QuitRequest := Flags.QuitRequest f;
       Flags.StopRequest := Flags.StopRequest f;
       Flags.SendSearchedNodes := true;
       Flags.lastInfoTime := t |}
  else f.

(** The third part: the decision to stop on time or nodes. *)
Definition poll_stop (i : PollInput) (f : Flags.t) : Flags.t :=
  if Flags.Limits_ponder f then f
  else
    let t := poll_time i in
    let stillAtFirstMove :=
      poll_FirstRootMove i
      && negb (poll_AspirationFailLow i)
      && (t >? available_time i) in
    let noMoreTime := (t >? maximum_time i) || stillAtFirstMove in
    if (useTimeManagement i && noMoreTime)
       || (truthy (Limits_maxTime i) && (t >=? Limits_maxTime i))
       || (truthy (Limits_maxNodes i)
           && (nodes_searched i >=? Limits_maxNodes i))
    then
      {| Flags.Limits_ponder := Flags.Limits_ponder f;
         Flags.QuitRequest := Flags.QuitRequest f;
         Flags.StopRequest := true;
         Flags.SendSearchedNodes := Flags.SendSearchedNodes f;
         Flags.lastInfoTime := Flags.lastInfoTime f |}
    else f.

(** [poll(pos)]. *)
Definition poll (i : PollInput) (f : Flags.t) : Flags.t :=
  let '(f1, returned) := poll_input i f in
  if returned then f1
  else poll_stop i (poll_info (poll_time i) f1).

(** [wait_for_stop_or_ponderhit] on the lines still to come from the
    standard input (an exhausted list is the end of the input, where
    [getline] fails and leaves the command empty): whether it sets
    [QuitRequest], and the lines it leaves unread. *)
Fixpoint wait_for_stop_or_ponderhit (input : list string)
    : bool * list string :=
  match input with
  | [] => (true, [])
  | c :: rest =>
      if String.eqb c "ponderhit" || String.eqb c "stop"
      then (false, rest)
      else if String.eqb c "quit" then (true, rest)
      else wait_for_stop_or_ponderhit rest
  end.

(** *** Counting leaves *)

Section Perft.
Context {T : Types}.

(** [Position] as the move generator and [do_move] present it. *)
Variable Pos : Type.
Variable legal_moves : Pos -> list Move.
Variable do_move : Pos -> Move -> Pos.

Definition sum_Z (l : list Z) : Z := fold_right Z.add 0 l.

(** [perft(pos, depth)].  Each call lowers the depth by ONE_PLY; the
    recursion is written on a bound [n] of the number of calls, which
    [perft] takes from the depth. *)
Fixpoint perft_calls (n : nat) (pos : Pos) (depth : Depth) : Z :=
  if depth <=? ONE_PLY then Z.of_nat (List.length (legal_moves pos))
  else
    match n with
    | O => Z.of_nat (List.length (legal_moves pos))
    | S n' =>
        sum_Z (map (fun m => perft_calls n' (do_move pos m)
                               (depth - ONE_PLY))
                   (legal_moves pos))
    end.

Definition perft (pos : Pos) (depth : Depth) : Z :=
  perft_calls (Z.to_nat depth) pos depth.

(** The lines of play of [n] moves from a position. *)
Fixpoint lines (n : nat) (pos : Pos) : list (list Move) :=
  match n with
  | O => [[]]
  | S n' =>
      flat_map (fun m => map (cons m) (lines n' (do_move pos m)))
               (legal_moves pos)
  end.

End Perft.

(** *** Stalemate detection *)

Module Stalemate.
Section Loop.

(** [pos.pl_move_is_legal]. *)
Variable pl_move_is_legal : Move -> bool.

(** The loop of [is_stalemate] with [cur] at the start of [mlist] and
    [last] entries in use: an illegal first move is overwritten with
    the last one, [cur->move = (--last)->move], until a legal move
    stands first or nothing is left; the answer is [cur == last]. *)
Fixpoint scan (last : nat) (mlist : list Move) : bool :=
  match last with
  | O => true
  | S last' =>
      if negb (pl_move_is_legal (hd 0 mlist))
      then scan last' (nth last' mlist 0 :: tl mlist)
      else false
  end.

(** [is_stalemate(pos)], given the moves of
    [generate<MV_NON_EVASION>(pos, mlist)]. *)
Definition is_stalemate (generated : list Move) : bool :=
  scan (List.length generated) generated.

End Loop.
End Stalemate.

(** *** A stored entry, as a later probe finds it *)

(** Modelled from the spec: [TT.store(key, value, bound, depth, move,
    sEval, sMargin)] of tt.cpp inserts or replaces the entry of the
    key; a probe that finds it reads the stored fields. *)
Definition entry_of_store (w : TTStore) : TTEntry.t :=
  {| TTEntry.move := st_move w;
     TTEntry.value := st_value w;
     TTEntry.type := st_type w;
     TTEntry.depth := st_depth w;
     TTEntry.static_value := st_static_value w;
     TTEntry.static_value_margin := st_static_value_margin w |}.

(** *** The driver under the promise of [search] *)

Section Run.
Context {T : Types}.

Variable MultiPV : Z.

(** [search] promises a value strictly between the two infinities (its
    last assertion). *)
Definition proper_answer (a : RootAnswer) : Prop :=
  - VALUE_INFINITE < ans_value a < VALUE_INFINITE.

(** The states in which [id_loop] calls the root search when every
    answer is proper. *)
Inductive id_run : Id.t -> Prop :=
| run_first (bestValues : Z -> Value) (ValueDraw LastValue : Value) :
    id_run (begin_iteration MultiPV
              (id_loop_init bestValues ValueDraw LastValue))
| run_research (st st' : Id.t) (a : RootAnswer) :
    id_run st ->
    proper_answer a ->
    aspiration_pass st a = Research st' ->
    id_run st'
| run_next (st st' : Id.t) (a : RootAnswer) (value : Value)
    (StopOnPonderhit : bool) :
    id_run st ->
    proper_answer a ->
    aspiration_pass st a = Accept st' value ->
    Id.depth st' < PLY_MAX ->
    id_run (begin_iteration MultiPV
              (end_iteration st' value StopOnPonderhit)).

(** The distance of the window from the full one. *)
Definition window_gap (st : Id.t) : Z :=
  (VALUE_INFINITE - Id.beta st) + (Id.alpha st + VALUE_INFINITE).

(** What the entry assertions of [search] ask of the window, and what
    keeps the aspiration loop moving: a window that is not the full
    one is widened by at least 16 points, and the scores of the
    finished iterations are proper. *)
Definition run_inv (st : Id.t) : Prop :=
  (- VALUE_INFINITE <= Id.alpha st
   /\ Id.alpha st < Id.beta st
   /\ Id.beta st <= VALUE_INFINITE)
  /\ 0 <= Id.aspirationDelta st
  /\ ((Id.alpha st = - VALUE_INFINITE /\ Id.beta st = VALUE_INFINITE)
      \/ 16 <= Id.aspirationDelta st)
  /\ (forall i, 1 <= i < Id.depth st ->
                - VALUE_INFINITE < Id.bestValues st i < VALUE_INFINITE).

End Run.

(** *** Sample inputs for the further functions *)

(** A passed pawn pushed to the seventh rank, with queens on the
    board and the enemy king far away. *)
Definition pawn_to_7th : ExtensionFacts :=
  {| ef_non_pawn_material := 5000;
     ef_see_sign := 0;
     ef_pawn_move := true;
     ef_pawn_is_passed := true;
     ef_relative_rank := 6;
     ef_queens := 1;
     ef_king_distance := 5;
     ef_captures_pawn := false;
     ef_material_left := 9000;
     ef_move_is_special := false |}.

(** A position in which the checking move 796 newly attacks a piece
    worth 300 and a piece worth 900. *)
Definition fork_position : Position :=
  {| in_check := false;
     is_draw := false;
     get_key := 1001;
     get_exclusion_key := 2002;
     evaluate := (40, 16);
     has_pawn_on_7th := false;
     non_pawn_material := 3000;
     can_castle := false;
     is_stalemate := false;
     move_is_pseudo_legal := fun _ => true;
     move_is_capture_or_promotion := fun _ => false;
     move_is_capture := fun _ => false;
     move_gives_check := fun _ => true;
     move_is_passed_pawn_push := fun _ => false;
     move_is_promotion := fun _ => false;
     move_is_ep := fun _ => false;
     move_is_ok := fun m => negb (m =? 0);
     move_from := fun m => Z.land (Z.shiftr m 6) 63;
     move_to := fun m => Z.land m 63;
     see := fun _ => 0;
     see_sign := fun _ => 0;
     type_of_piece_on := fun _ => 2;
     endgame_value_of_piece_on := fun sq => if sq =? 20 then 900 else 300;
     king_on_border := false;
     queen_contact_check := fun _ => false;
     new_victims := fun _ => [10; 20] |}.

(** An engine whose futility table differs from the one of
    [engine_with] outside the rows and columns that exist. *)
Definition engine_padded : Engine :=
  {| probe := fun _ => None;
     StopRequest := false;
     cutoff_occurred := false;
     FutilityMargins :=
       fun i j =>
         if (1 <=? i) && (i <=? 13) && (0 <=? j) && (j <=? 63)
         then 100 else 7;
     MultiPV := 1;
     Rml_pv0 := fun _ => 0 |}.

(** A PV of three plies: a miss, an entry that already holds the PV
    move, and a deep upper bound with another move. *)
Definition sample_pv : list PvPly :=
  [ {| pp_move := 796; pp_key := 11; pp_tte := None |};
    {| pp_move := 812; pp_key := 12;
       pp_tte :=
         Some {| TTEntry.move := 812; TTEntry.value := 30;
                 TTEntry.type := VALUE_TYPE_EXACT; TTEntry.depth := 8;
                 TTEntry.static_value := 40;
                 TTEntry.static_value_margin := 16 |} |};
    {| pp_move := 1330; pp_key := 13;
       pp_tte := Some (bound_entry 25 VALUE_TYPE_UPPER 6 35 12) |} ].

(** The flags at the start of a search that ponders, and a poll far
    beyond every time budget with no input waiting. *)
Definition pondering : Flags.t :=
  {| Flags.Limits_ponder := true;
     Flags.QuitRequest := false;
     Flags.StopRequest := false;
     Flags.SendSearchedNodes := false;
     Flags.lastInfoTime := 0 |}.

Definition late_poll (line : option string) : PollInput :=
  {| input_available :=
       match line with Some _ => true | None => false end;
     command := line;
     poll_time := 90000;
     poll_StopOnPonderhit := false;
     poll_FirstRootMove := true;
     poll_AspirationFailLow := false;
     available_time := 2000;
     maximum_time := 5000;
     useTimeManagement := true;
     Limits_maxTime := 0;
     Limits_maxNodes := 0;
     nodes_searched := 123456 |}.

(** A game tree for [perft]: from position [k] the moves 1 .. k lead to
    the positions k - 1 .. 0. *)
Definition countdown_moves (k : Z) : list Move :=
  map Z.of_nat (seq 1 (Z.to_nat k)).

Definition countdown_do_move (k : Z) (m : Move) : Z := k - m.

(** A node of [search] whose move 796 failed high with 60 at ply 3,
    and a quiescence node whose move 796 scored 30 there. *)
Definition fail_high_scores : Scores.t :=
  {| Scores.alpha := 60;
     Scores.bestValue := 60;
     Scores.bestMove := 796;
     Scores.ss := frame_at 3 |}.

Definition exact_qstate : QState.t :=
  {| QState.alpha := 30;
     QState.bestValue := 30;
     QState.bestMove := 796;
     QState.ss := frame_at 3 |}.

(** The entry [insert_pv_in_tt] writes on a miss for the PV move 796:
    a move and nothing else. *)
Definition move_only_entry : TTEntry.t :=
  {| TTEntry.move := 796;
     TTEntry.value := 30002;
     TTEntry.type := VALUE_TYPE_NONE;
     TTEntry.depth := -256;
     TTEntry.static_value := 30002;
     TTEntry.static_value_margin := 30002 |}.

(** * Properties *)

(** Case analysis on the integer tests of a goal. *)
Ltac split_cmp :=
  repeat match goal with
  | |- context [?a >=? ?b] => destruct (Z.geb_spec a b)
  | |- context [?a <=? ?b] => destruct (Z.leb_spec a b)
  | |- context [?a <? ?b] => destruct (Z.ltb_spec a b)
  | |- context [?a >? ?b] => destruct (Z.gtb_spec a b)
  | |- context [?a =? ?b] => destruct (Z.eqb_spec a b)
  end.

(** ** The value encoding of the transposition table *)

Section EncodingFacts.
Context {T : Types}.

Lemma mate_band : VALUE_MATED_IN_PLY_MAX < 0 < VALUE_MATE_IN_PLY_MAX.
Proof.
  unfold VALUE_MATED_IN_PLY_MAX, VALUE_MATE_IN_PLY_MAX.
  pose proof ply_max_nonneg. pose proof ply_max_lt_mate. lia.
Qed.

(** The reading direction leaves the sentinel alone. *)
Lemma value_from_tt_NONE (ply : Z) :
  value_from_tt VALUE_NONE ply = VALUE_NONE.
Proof. unfold value_from_tt. now rewrite Z.eqb_refl. Qed.

(** A score that is stored as the sentinel is read back as the
    sentinel, not as the score. *)
Lemma value_tt_roundtrip_lost (ply : Z) :
  0 < ply ->
  VALUE_MATE_IN_PLY_MAX <= VALUE_NONE - ply ->
  value_from_tt (value_to_tt (VALUE_NONE - ply) ply) ply = VALUE_NONE.
Proof.
  intros Hply Hband. unfold value_to_tt.
  destruct (Z.geb_spec (VALUE_NONE - ply) VALUE_MATE_IN_PLY_MAX); [|lia].
  replace (VALUE_NONE - ply + ply) with VALUE_NONE by lia.
  apply value_from_tt_NONE.
Qed.

(** C1, as amended: reading back what [value_to_tt] produced at the
    same ply gives the score again, for every score and every ply from
    0 on, as long as the stored number is not the sentinel VALUE_NONE. *)
Theorem value_tt_roundtrip (v : Value) (ply : Z) :
  0 <= ply ->
  value_to_tt v ply <> VALUE_NONE ->
  value_from_tt (value_to_tt v ply) ply = v.
Proof.
  intros Hply Hnone. pose proof mate_band as Hband.
  unfold value_from_tt.
  destruct (Z.eqb_spec (value_to_tt v ply) VALUE_NONE) as [E|_];
    [contradiction|].
  clear Hnone. unfold value_to_tt.
  destruct (Z.geb_spec v VALUE_MATE_IN_PLY_MAX).
  - destruct (Z.geb_spec (v + ply) VALUE_MATE_IN_PLY_MAX); lia.
  - destruct (Z.leb_spec v VALUE_MATED_IN_PLY_MAX).
    + destruct (Z.geb_spec (v - ply) VALUE_MATE_IN_PLY_MAX); [lia|].
      destruct (Z.leb_spec (v - ply) VALUE_MATED_IN_PLY_MAX); lia.
    + destruct (Z.geb_spec v VALUE_MATE_IN_PLY_MAX); [lia|].
      destruct (Z.leb_spec v VALUE_MATED_IN_PLY_MAX); lia.
Qed.

(** C2, as amended: [value_to_tt] adds the ply to a score at or above
    MATE_IN_PLY_MAX, subtracts it from a score at or below
    MATED_IN_PLY_MAX and leaves the scores in between unchanged; the
    sentinel is protected on the reading side, where
    [value_from_tt VALUE_NONE ply] is [VALUE_NONE] for every ply. *)
Theorem value_to_tt_cases (v : Value) (ply : Z) :
  (VALUE_MATE_IN_PLY_MAX <= v -> value_to_tt v ply = v + ply)
  /\ (v <= VALUE_MATED_IN_PLY_MAX -> value_to_tt v ply = v - ply)
  /\ (VALUE_MATED_IN_PLY_MAX < v < VALUE_MATE_IN_PLY_MAX ->
      value_to_tt v ply = v)
  /\ value_from_tt VALUE_NONE ply = VALUE_NONE.
Proof.
  pose proof mate_band as Hband.
  unfold value_to_tt. repeat split; try apply value_from_tt_NONE.
  all: intros H; split_cmp; lia.
Qed.

(** The storing direction has no case for the sentinel: whenever
    VALUE_NONE lies at or above the mate band it is shifted like a
    mate score. *)
Lemma value_to_tt_NONE_shifted (ply : Z) :
  VALUE_MATE_IN_PLY_MAX <= VALUE_NONE ->
  value_to_tt VALUE_NONE ply = VALUE_NONE + ply.
Proof.
  intros H. unfold value_to_tt.
  destruct (Z.geb_spec VALUE_NONE VALUE_MATE_IN_PLY_MAX); [reflexivity | lia].
Qed.

(** A sentinel is not an ordinary score; wherever it lies outside the
    band, [value_to_tt] moves it at every ply but 0. *)
Lemma value_to_tt_NONE_moves (ply : Z) :
  VALUE_MATE_IN_PLY_MAX <= VALUE_NONE
  \/ VALUE_NONE <= VALUE_MATED_IN_PLY_MAX ->
  ply <> 0 ->
  value_to_tt VALUE_NONE ply <> VALUE_NONE.
Proof.
  intros Hout Hply. pose proof mate_band as Hband.
  unfold value_to_tt. split_cmp; lia.
Qed.

Lemma vt_LOWER_cases (t : ValueType) :
  vt_and t VALUE_TYPE_LOWER = true <->
  t = VALUE_TYPE_LOWER \/ t = VALUE_TYPE_EXACT.
Proof.
  destruct t; vm_compute; split; intros H;
    try discriminate; try reflexivity; auto;
    destruct H; discriminate.
Qed.

Lemma vt_UPPER_cases (t : ValueType) :
  vt_and t VALUE_TYPE_UPPER = true <->
  t = VALUE_TYPE_UPPER \/ t = VALUE_TYPE_EXACT.
Proof.
  destruct t; vm_compute; split; intros H;
    try discriminate; try reflexivity; auto;
    destruct H; discriminate.
Qed.

(** C3, as amended: [ok_to_use_TT] accepts exactly a lower bound at or
    above beta whose depth suffices or whose score is a mate score for
    the side to move, and an upper bound below beta whose depth
    suffices or whose score is below the mated band. *)
Theorem ok_to_use_TT_iff (tte : TTEntry.t) (depth : Depth) (beta : Value)
    (ply : Z) :
  let v := value_from_tt (TTEntry.value tte) ply in
  ok_to_use_TT tte depth beta ply = true <->
  (vt_and (TTEntry.type tte) VALUE_TYPE_LOWER = true
   /\ beta <= v
   /\ (depth <= TTEntry.depth tte \/ VALUE_MATE_IN_PLY_MAX <= v))
  \/ (vt_and (TTEntry.type tte) VALUE_TYPE_UPPER = true
      /\ v < beta
      /\ (depth <= TTEntry.depth tte \/ v < VALUE_MATED_IN_PLY_MAX)).
Proof.
  intros v. unfold ok_to_use_TT. fold v.
  rewrite andb_true_iff, !orb_true_iff, !andb_true_iff.
  rewrite !Z.geb_le, !Z.ltb_lt.
  split.
  - intros [Hd [[Hl Hb]|[Hu Hb]]]; [left|right]; repeat split; auto; lia.
  - intros [[Hl [Hb Hd]]|[Hu [Hb Hd]]]; split; auto; lia.
Qed.

(** The accepted entries are among those the specification describes:
    the depth suffices or the score is outside the ordinary band, and
    the bound lies on the right side of beta. *)
Lemma ok_to_use_TT_sound (tte : TTEntry.t) (depth : Depth) (beta : Value)
    (ply : Z) :
  ok_to_use_TT tte depth beta ply = true ->
  ok_to_use_TT_spec tte depth beta ply.
Proof.
  unfold ok_to_use_TT, ok_to_use_TT_spec, outside_ordinary_band.
  rewrite andb_true_iff, !orb_true_iff, !andb_true_iff.
  rewrite !Z.geb_le, !Z.ltb_lt.
  intros [Hd [[Hl Hb]|[Hu Hb]]]; split; auto; lia.
Qed.

End EncodingFacts.

Lemma value_tt_roundtrip_witness :
  0 <= 3
  /\ @value_to_tt Stockfish21 29950 3 <> @VALUE_NONE Stockfish21
  /\ @value_from_tt Stockfish21 (@value_to_tt Stockfish21 29950 3) 3 = 29950.
Proof.
  assert (H0 : 0 <= 3) by lia.
  assert (H1 : @value_to_tt Stockfish21 29950 3 <> @VALUE_NONE Stockfish21)
    by (vm_compute; discriminate).
  split; [exact H0|]. split; [exact H1|].
  exact (@value_tt_roundtrip Stockfish21 29950 3 H0 H1).
Defined.

(** With the header values the score VALUE_MATE at ply 2 is stored as
    30002, which is VALUE_NONE, and read back unshifted. *)
Lemma value_tt_roundtrip_counterexample :
  ~ (forall (v : Value) (ply : Z),
       - @VALUE_MATE Stockfish21 <= v <= @VALUE_MATE Stockfish21 ->
       0 <= ply <= @PLY_MAX Stockfish21 ->
       @value_from_tt Stockfish21 (@value_to_tt Stockfish21 v ply) ply = v).
Proof.
  intros H. specialize (H 30000 2). vm_compute in H.
  assert (E : 30002 = 30000) by (apply H; split; discriminate).
  discriminate E.
Qed.

Lemma value_to_tt_cases_witness :
  @value_to_tt Stockfish21 29950 3 = 29953
  /\ @value_to_tt Stockfish21 (-29950) 3 = -29953
  /\ @value_to_tt Stockfish21 120 3 = 120
  /\ @value_from_tt Stockfish21 (@VALUE_NONE Stockfish21) 3
     = @VALUE_NONE Stockfish21.
Proof.
  split; [|split; [|split]].
  - apply (@value_to_tt_cases Stockfish21 29950 3). vm_compute. discriminate.
  - apply (@value_to_tt_cases Stockfish21 (-29950) 3).
    vm_compute. discriminate.
  - apply (@value_to_tt_cases Stockfish21 120 3). vm_compute.
    split; reflexivity.
  - apply (@value_to_tt_cases Stockfish21 120 3).
Defined.

(** With the header values VALUE_NONE is shifted by [value_to_tt] at
    every ply but 0. *)
Lemma value_to_tt_NONE_counterexample :
  ~ (forall ply : Z,
       @value_to_tt Stockfish21 (@VALUE_NONE Stockfish21) ply
       = @VALUE_NONE Stockfish21).
Proof.
  intros H. specialize (H 1). vm_compute in H. discriminate H.
Qed.

(** An upper bound stored as 29950 at depth 0 and probed at ply 3 and
    depth 2 against beta 29960: the score 29947 is a mate score, so
    outside the ordinary band, and on the right side of beta, and the
    entry is refused. *)
Lemma ok_to_use_TT_counterexample :
  ~ (forall (tte : TTEntry.t) (depth : Depth) (beta : Value) (ply : Z),
       @ok_to_use_TT Stockfish21 tte depth beta ply = true <->
       @ok_to_use_TT_spec Stockfish21 tte depth beta ply).
Proof.
  intros H.
  specialize
    (H {| TTEntry.move := 0; TTEntry.value := 29950;
          TTEntry.type := VALUE_TYPE_UPPER; TTEntry.depth := 0;
          TTEntry.static_value := 10; TTEntry.static_value_margin := 0 |}
       2 29960 3).
  destruct H as [_ H].
  assert (E : false = true).
  { apply H. vm_compute. split.
    - right. left. discriminate.
    - right. split; reflexivity. }
  discriminate E.
Qed.

(** ** The head of the main search *)

Section SearchHeadFacts.
Context {T : Types}.

Variable PvNode : NodeType.
Variable Root : bool.
Variable pos : Position.
Variable eng : Engine.
Variable depth : Depth.
Variable ss_prev : SearchStack.t.
Variable qsearch_here :
  SearchStack.t -> Value -> Value -> Depth -> Value * SearchStack.t.

Lemma and_then_assoc (f : Flow) (g h : Locals.t -> Flow) :
  f >>> (fun l => g l >>> h) = f >>> g >>> h.
Proof. now destruct f. Qed.

(** Steps 6 and 7 follow the first five. *)
Lemma search_head_split (alpha beta : Value) (ss : SearchStack.t) :
  search_head PvNode Root pos eng depth ss_prev qsearch_here alpha beta ss
  = search_before_razoring PvNode Root pos eng depth ss_prev alpha beta ss
      >>> step6 PvNode pos depth qsearch_here
      >>> step7 PvNode pos eng depth.
Proof.
  unfold search_head, search_before_razoring, search_after_lookup.
  now rewrite !and_then_assoc.
Qed.

(** The guard of Step 6, spelled out. *)
Lemma razoring_applies_iff (l : Locals.t) :
  razoring_applies PvNode pos depth l = true <->
  PvNode = NonPV
  /\ depth < RazorDepth
  /\ in_check pos = false
  /\ Locals.refinedValue l + razor_margin depth < Locals.beta l
  /\ Locals.ttMove l = MOVE_NONE
  /\ Locals.excludedMove l = MOVE_NONE
  /\ Z.abs (Locals.beta l) < VALUE_MATE_IN_PLY_MAX
  /\ has_pawn_on_7th pos = false.
Proof.
  unfold razoring_applies, truthy.
  rewrite !andb_true_iff, !negb_true_iff, negb_false_iff.
  rewrite !Z.ltb_lt, !Z.eqb_eq.
  destruct PvNode; simpl; intuition congruence.
Qed.

(** Outside its guard Step 6 does nothing: no quiescence search, no
    return. *)
Lemma razoring_skipped (l : Locals.t) :
  razoring_applies PvNode pos depth l = false ->
  step6 PvNode pos depth qsearch_here l = Continue l.
Proof. intros H. unfold step6. now rewrite H. Qed.

(** C4, as amended: at a non-PV node that reaches Step 6 with depth
    below RazorDepth, not in check, without TT move and with the
    refined evaluation plus the razor margin below beta, and moreover
    without excluded move, with beta below the mate band and without a
    pawn of the side to move on the seventh rank, [search] calls
    [qsearch<NonPV>] on the window [(rbeta - 1, rbeta)] at DEPTH_ZERO,
    where [rbeta = beta - razor_margin depth], and returns its value
    when that is below [rbeta]; otherwise it goes on with Step 7. *)
Theorem razoring_trigger (alpha beta : Value) (ss : SearchStack.t)
    (l : Locals.t) :
  search_before_razoring PvNode Root pos eng depth ss_prev alpha beta ss
    = Continue l ->
  PvNode = NonPV ->
  depth < RazorDepth ->
  in_check pos = false ->
  Locals.ttMove l = MOVE_NONE ->
  Locals.refinedValue l + razor_margin depth < Locals.beta l ->
  Locals.excludedMove l = MOVE_NONE ->
  Z.abs (Locals.beta l) < VALUE_MATE_IN_PLY_MAX ->
  has_pawn_on_7th pos = false ->
  let rbeta := Locals.beta l - razor_margin depth in
  let r := qsearch_here (Locals.ss l) (rbeta - 1) rbeta DEPTH_ZERO in
  search_head PvNode Root pos eng depth ss_prev qsearch_here alpha beta ss
  = if fst r <? rbeta
    then Return (fst r) (snd r) (Locals.tt_stores l)
    else step7 PvNode pos eng depth
           (with_eval (Locals.refinedValue l) (snd r)
              (Locals.tt_stores l) l).
Proof.
  intros Hpre Hpv Hd Hc Htt Hev Hex Hb Hp7 rbeta r.
  rewrite search_head_split, Hpre. simpl.
  assert (G : razoring_applies PvNode pos depth l = true)
    by (apply razoring_applies_iff; repeat split; assumption).
  unfold step6. rewrite G. fold rbeta. fold r.
  destruct r as [v s]. simpl.
  now destruct (v <? rbeta).
Qed.

End SearchHeadFacts.

Lemma razoring_trigger_witness :
  @search_head Stockfish21 NonPV false quiet_position (engine_with None) 2
    (frame_at 3) fail_low_qsearch 999 1000 (frame_at 0)
  = Return 455
      (SearchStack.set_eval 40 16
         (SearchStack.set_currentMove 0 (SearchStack.set_ply 4 (frame_at 0))))
      [ {| st_key := 1001; st_value := 30002; st_type := VALUE_TYPE_NONE;
           st_depth := -254; st_move := 0; st_static_value := 40;
           st_static_value_margin := 16 |} ].
Proof.
  exact (@razoring_trigger Stockfish21 NonPV false quiet_position
           (engine_with None) 2 (frame_at 3) fail_low_qsearch 999 1000
           (frame_at 0) _ eq_refl eq_refl eq_refl eq_refl eq_refl eq_refl
           eq_refl eq_refl eq_refl).
Defined.

(** The same node with a pawn on the seventh rank: it is not a PV
    node, the depth is below RazorDepth, there is no check and no TT
    move, the evaluation plus the margin is below beta and the
    quiescence search would fail low, but Step 6 is skipped and the
    node goes on. *)
Lemma razoring_counterexample :
  ~ (forall (pos : Position) (eng : Engine) (depth : Depth)
            (ss_prev ss : SearchStack.t)
            (qs : SearchStack.t -> Value -> Value -> Depth
                  -> Value * SearchStack.t)
            (alpha beta : Value) (l : Locals.t),
       @search_before_razoring Stockfish21 NonPV false pos eng depth
         ss_prev alpha beta ss = Continue l ->
       depth < @RazorDepth Stockfish21 ->
       in_check pos = false ->
       Locals.ttMove l = MOVE_NONE ->
       Locals.refinedValue l + razor_margin depth < Locals.beta l ->
       let rbeta := Locals.beta l - razor_margin depth in
       let r := qs (Locals.ss l) (rbeta - 1) rbeta DEPTH_ZERO in
       fst r < rbeta ->
       @search_head Stockfish21 NonPV false pos eng depth ss_prev qs
         alpha beta ss
       = Return (fst r) (snd r) (Locals.tt_stores l)).
Proof.
  intros H.
  specialize
    (H pawn_on_7th_position (engine_with None) 2 (frame_at 3) (frame_at 0)
       fail_low_qsearch 999 1000 _ eq_refl eq_refl eq_refl eq_refl eq_refl
       eq_refl).
  vm_compute in H. discriminate H.
Qed.

(** ** The move loop and the end of the main search *)

Section SearchTailFacts.
Context {T : Types}.

Variable Root : bool.
Variable pos : Position.
Variable eng : Engine.
Variable depth : Depth.
Variable prev2_currentMove : Move.
Variable visit : Move -> Z -> Scores.t -> Scores.t * bool.
Variable stop_at_end : bool.
Variable cutoff_at_end : bool.

Let loop := search_moves Root pos eng prev2_currentMove visit.

(** [moveCount] never decreases over the loop, and a loop that leaves
    it unchanged has visited no move. *)
Lemma search_moves_count (beta : Value) (excludedMove : Move)
    (mp : list (Move * bool)) :
  forall (n : Z) (sc : Scores.t),
    n <= fst (loop beta excludedMove mp n sc)
    /\ (fst (loop beta excludedMove mp n sc) = n ->
        snd (loop beta excludedMove mp n sc) = sc).
Proof.
  induction mp as [|[move cutoff] rest IH]; intros n sc; simpl.
  - split; [lia | reflexivity].
  - destruct (negb (Scores.bestValue sc <? beta));
      [simpl; split; [lia | reflexivity]|].
    destruct cutoff; [simpl; split; [lia | reflexivity]|].
    destruct (excluded_class pos prev2_currentMove excludedMove move);
      [apply IH|].
    destruct (negb (excludedMove =? MOVE_NONE) && _).
    + replace (n + 1 - 1) with n by lia. apply IH.
    + destruct (visit _ (n + 1) sc) as [sc' stop].
      destruct stop; simpl; [split; lia|].
      destruct (IH (n + 1) sc') as [Hle _].
      fold loop in Hle. split; lia.
Qed.

(** Without any move from the picker nothing is counted. *)
Lemma search_moves_nil (beta : Value) (excludedMove : Move)
    (n : Z) (sc : Scores.t) :
  loop beta excludedMove [] n sc = (n, sc).
Proof. reflexivity. Qed.

(** C5: when the move loop of a node that is not a split point ends
    with [moveCount == 0], [search] returns [oldAlpha] if an excluded
    move is set, else [value_mated_in(ply)] if the side to move is in
    check, else VALUE_DRAW; the frame only has its current move
    cleared and nothing is stored in the table. *)
Theorem mate_or_stalemate (l : Locals.t) (mp : list (Move * bool)) :
  fst (search_moves Root pos eng prev2_currentMove visit (Locals.beta l)
         (Locals.excludedMove l) mp 0
         {| Scores.alpha := Locals.alpha l;
            Scores.bestValue := - VALUE_INFINITE;
            Scores.bestMove := MOVE_NONE;
            Scores.ss := Locals.ss l |}) = 0 ->
  search_tail Root pos eng depth prev2_currentMove visit stop_at_end
    cutoff_at_end l mp
  = ((if truthy (Locals.excludedMove l) then Locals.oldAlpha l
      else if in_check pos
           then value_mated_in (SearchStack.ply (Locals.ss l))
           else VALUE_DRAW),
     SearchStack.set_currentMove MOVE_NONE (Locals.ss l),
     Locals.tt_stores l).
Proof.
  intros H0. unfold search_tail.
  destruct (search_moves_count (Locals.beta l) (Locals.excludedMove l) mp 0
              {| Scores.alpha := Locals.alpha l;
                 Scores.bestValue := - VALUE_INFINITE;
                 Scores.bestMove := MOVE_NONE;
                 Scores.ss := Locals.ss l |}) as [_ Hsame].
  unfold loop in Hsame. specialize (Hsame H0).
  destruct (search_moves _ _ _ _ _ _ _ _ 0 _) as [n sc].
  simpl in H0, Hsame. subst n sc.
  unfold search_finish. simpl. reflexivity.
Qed.

(** In particular a node whose picker has no move to hand out. *)
Corollary no_moves_mate_or_stalemate (l : Locals.t) :
  fst (fst (search_tail Root pos eng depth prev2_currentMove visit
              stop_at_end cutoff_at_end l []))
  = if truthy (Locals.excludedMove l) then Locals.oldAlpha l
    else if in_check pos
         then value_mated_in (SearchStack.ply (Locals.ss l))
         else VALUE_DRAW.
Proof. reflexivity. Qed.

End SearchTailFacts.

(** A node searched with the excluded move 77 whose picker only hands
    out that move: nothing is counted and [oldAlpha] is returned. *)
Lemma mate_or_stalemate_witness :
  fst (@search_moves Stockfish21 false check_position (engine_with None) 0
         idle_visit 50 77 [(77, false)] 0
         {| Scores.alpha := 49; Scores.bestValue := -30001;
            Scores.bestMove := 0; Scores.ss := frame_at 5 |}) = 0
  /\ @search_tail Stockfish21 false check_position (engine_with None) 4 0
       idle_visit false false (locals_at 49 50 77 5) [(77, false)]
     = (49, frame_at 5, []).
Proof.
  split; [reflexivity|].
  exact (@mate_or_stalemate Stockfish21 false check_position
           (engine_with None) 4 0 idle_visit false false
           (locals_at 49 50 77 5) [(77, false)] eq_refl).
Defined.

(** Checkmate at ply 5: the mated-in-5 score. *)
Example checkmate_at_ply_5 :
  fst (fst (@search_tail Stockfish21 false check_position
              (engine_with None) 4 0 idle_visit false false
              (locals_at 49 50 0 5) []))
  = -29995.
Proof. reflexivity. Qed.

(** ** The quiescence search *)

Section QSearchFacts.
Context {T : Types}.

Variable PvNode : NodeType.
Variable pos : Position.
Variable eng : Engine.
Variable ss_prev : SearchStack.t.
Variable picker : Move -> Depth -> list Move.
Variable child : Move -> Value -> Value -> Depth -> Value.

(** The loop writes the current move and the mate killer of the frame,
    never its ply. *)
Lemma qsearch_move_ply (inCheck enoughMaterial : bool)
    (futilityBase beta : Value) (ttMove : Move) (depth : Depth)
    (move : Move) (q : QState.t) :
  SearchStack.ply
    (QState.ss
       (qsearch_move PvNode pos ss_prev child inCheck enoughMaterial
          futilityBase beta ttMove depth move q))
  = SearchStack.ply (QState.ss q).
Proof.
  unfold qsearch_move.
  repeat match goal with
         | |- context [if ?b then _ else _] => destruct b
         end; reflexivity.
Qed.

Lemma qsearch_moves_ply (inCheck enoughMaterial : bool)
    (futilityBase beta : Value) (ttMove : Move) (depth : Depth)
    (mp : list Move) :
  forall q : QState.t,
    SearchStack.ply
      (QState.ss
         (qsearch_moves PvNode pos ss_prev child inCheck enoughMaterial
            futilityBase beta ttMove depth mp q))
    = SearchStack.ply (QState.ss q).
Proof.
  induction mp as [|move rest IH]; intros q; simpl; [reflexivity|].
  destruct (QState.alpha q <? beta); [|reflexivity].
  rewrite IH. apply qsearch_move_ply.
Qed.

(** In check and with [bestValue] still at [-VALUE_INFINITE] no move is
    pruned: the move is searched and its value becomes [bestValue]
    unless the child search answers [+VALUE_INFINITE]. *)
Lemma qsearch_evasion_is_searched (enoughMaterial : bool)
    (futilityBase beta : Value) (ttMove : Move) (depth : Depth)
    (move : Move) (q : QState.t) :
  QState.bestValue q = - VALUE_INFINITE ->
  let value := - child move (- beta) (- QState.alpha q) (depth - ONE_PLY) in
  QState.bestValue
    (qsearch_move PvNode pos ss_prev child true enoughMaterial
       futilityBase beta ttMove depth move q)
  = Z.max value (- VALUE_INFINITE).
Proof.
  intros Hbest value. unfold qsearch_move. fold value.
  pose proof mate_band as Hband. pose proof mate_lt_infinite as Hinf.
  pose proof ply_max_nonneg as Hply.
  assert (Hprune : (QState.bestValue q >? VALUE_MATED_IN_PLY_MAX) = false).
  { rewrite Hbest. unfold VALUE_MATED_IN_PLY_MAX.
    destruct (Z.gtb_spec (- VALUE_INFINITE) (- VALUE_MATE + PLY_MAX)); lia. }
  rewrite Hprune. simpl.
  rewrite !andb_false_r. simpl.
  rewrite Hbest.
  destruct (Z.gtb_spec value (- VALUE_INFINITE)).
  - destruct (value >? QState.alpha q); simpl; lia.
  - simpl. lia.
Qed.

(** Without moves the loop leaves [bestValue] where it started. *)
Lemma qsearch_evasions_nil (alpha beta : Value) (depth : Depth)
    (ss : SearchStack.t) (ttMove : Move) :
  picker ttMove depth = [] ->
  QState.bestValue
    (qsearch_evasions PvNode pos ss_prev picker child alpha beta depth ss
       ttMove)
  = - VALUE_INFINITE.
Proof. intros H. unfold qsearch_evasions. now rewrite H. Qed.

(** C6: a call of [qsearch] on a position in check that is neither
    drawn nor beyond PLY_MAX, that is not cut by the table, and whose
    move loop ends with [bestValue] still at [-VALUE_INFINITE], returns
    [value_mated_in(ply)]. *)
Theorem qsearch_checkmate (alpha beta : Value) (depth : Depth)
    (ss : SearchStack.t) :
  in_check pos = true ->
  is_draw pos = false ->
  SearchStack.ply ss_prev + 1 <= PLY_MAX ->
  let ss' :=
    SearchStack.set_ply (SearchStack.ply ss_prev + 1)
      (SearchStack.set_currentMove MOVE_NONE ss) in
  let ttMove := fst (qsearch_lookup pos eng) in
  let tte := snd (qsearch_lookup pos eng) in
  qsearch_tt_cutoff PvNode beta DEPTH_QS_CHECKS ss' ttMove tte = None ->
  QState.bestValue
    (qsearch_evasions PvNode pos ss_prev picker child alpha beta depth ss'
       ttMove)
  = - VALUE_INFINITE ->
  fst (fst (qsearch PvNode pos eng ss_prev picker child alpha beta depth ss))
  = value_mated_in (SearchStack.ply ss_prev + 1).
Proof.
  intros Hcheck Hdraw Hply ss' ttMove tte Hcut Hbest.
  unfold qsearch. fold ss'.
  replace (SearchStack.ply ss' >? PLY_MAX) with false
    by (simpl; destruct (Z.gtb_spec (SearchStack.ply ss_prev + 1) PLY_MAX);
        [lia | reflexivity]).
  rewrite Hdraw. simpl.
  subst ttMove tte. destruct (qsearch_lookup pos eng) as [ttMove tte].
  simpl in Hcut, Hbest.
  unfold qsearch_after_lookup. rewrite Hcheck. simpl. rewrite Hcut.
  unfold qsearch_finish. rewrite Hbest, Z.eqb_refl. simpl.
  unfold qsearch_evasions. rewrite qsearch_moves_ply. reflexivity.
Qed.

End QSearchFacts.

(** Out of check the static evaluation 40 stands pat against beta 30
    and is stored without bound. *)
Example qsearch_stand_pat :
  @qsearch Stockfish21 NonPV quiet_position (engine_with None) (frame_at 3)
    no_moves quiet_child 29 30 0 (frame_at 0)
  = (40,
     SearchStack.set_eval 40 16 (SearchStack.set_ply 4 (frame_at 0)),
     [ {| st_key := 1001; st_value := 30002; st_type := VALUE_TYPE_NONE;
          st_depth := -254; st_move := 0; st_static_value := 40;
          st_static_value_margin := 16 |} ]).
Proof. vm_compute. reflexivity. Qed.

(** In check with one evasion worth -25: the move is searched, its
    value is returned and stored as an upper bound of depth
    DEPTH_QS_CHECKS. *)
Example qsearch_single_evasion :
  @qsearch Stockfish21 NonPV check_position (engine_with None) (frame_at 3)
    one_move child_25 10 11 0 (frame_at 0)
  = (-25,
     SearchStack.set_eval 30002 30002
       (SearchStack.set_ply 4 (frame_at 0)),
     [ {| st_key := 1001; st_value := -25; st_type := VALUE_TYPE_UPPER;
          st_depth := -2; st_move := 0; st_static_value := 30002;
          st_static_value_margin := 30002 |} ]).
Proof. vm_compute. reflexivity. Qed.

(** Checkmate six plies below the frame of the caller. *)
Lemma qsearch_checkmate_witness :
  fst (fst (@qsearch Stockfish21 NonPV check_position (engine_with None)
              (frame_at 6) no_moves quiet_child 10 11 0 (frame_at 0)))
  = -29993.
Proof.
  exact (@qsearch_checkmate Stockfish21 NonPV check_position
           (engine_with None) (frame_at 6) no_moves quiet_child 10 11 0
           (frame_at 0) eq_refl eq_refl
           (fun H : ((6 + 1) ?= 100) = Gt => ltac:(discriminate H))
           eq_refl eq_refl).
Defined.

(** ** The driver *)

Section DriverFacts.
Context {T : Types}.

Lemma append_empty_r (s : string) : (s ++ EmptyString)%string = s.
Proof. induction s as [|c s IH]; simpl; [reflexivity | now rewrite IH]. Qed.

(** A position without legal moves has no root move, whatever the
    [searchmoves] restriction. *)
Lemma Rml_init_no_legal_move (searchMoves : list Move) :
  Rml_init [] searchMoves = [].
Proof. reflexivity. Qed.

(** The two scores of the depth-0 line, as printed. *)
Lemma value_to_uci_draw : value_to_uci VALUE_DRAW = "cp 0"%string.
Proof.
  unfold value_to_uci, VALUE_DRAW. pose proof ply_max_lt_mate.
  pose proof ply_max_nonneg. simpl Z.abs.
  destruct (Z.ltb_spec 0 (VALUE_MATE - PLY_MAX)); [reflexivity | lia].
Qed.

Lemma value_to_uci_mated : value_to_uci (- VALUE_MATE) = "mate 0"%string.
Proof.
  unfold value_to_uci. pose proof ply_max_lt_mate.
  pose proof ply_max_nonneg.
  destruct (Z.ltb_spec (Z.abs (- VALUE_MATE)) (VALUE_MATE - PLY_MAX)); [lia|].
  destruct (Z.gtb_spec (- VALUE_MATE) 0); [lia|].
  replace (- VALUE_MATE - - VALUE_MATE) with 0 by lia. reflexivity.
Qed.

(** C7: with an empty root move list [id_loop] writes the single line
    "info depth 0 score s", where s prints [-VALUE_MATE] when the side
    to move is in check and VALUE_DRAW otherwise, and returns MOVE_NONE
    with no ponder move; [think], unless the book answered, then writes
    the statistics line and "bestmove" followed by the printed
    MOVE_NONE alone. *)
Theorem root_without_moves (OwnBook : bool) (bookMove : Move)
    (ponder infinite wait_quits : bool) (move_to_uci : Move -> string)
    (nodes t : Z) (deepen : list RootMove -> IdResult) (in_check : bool)
    (legal searchMoves : list Move) :
  Rml_init legal searchMoves = [] ->
  OwnBook && negb (bookMove =? MOVE_NONE) = false ->
  let score :=
    value_to_uci (if in_check then - VALUE_MATE else VALUE_DRAW) in
  id_loop deepen in_check legal searchMoves
  = {| id_bestMove := MOVE_NONE;
       id_ponderMove := MOVE_NONE;
       id_stdout := [ ("info depth 0 score " ++ score)%string ];
       id_StopRequest := false;
       id_QuitRequest := false |}
  /\ fst (think OwnBook bookMove ponder infinite wait_quits move_to_uci
            nodes t deepen in_check legal searchMoves)
     = [ ("info depth 0 score " ++ score)%string;
         ("info" ++ speed_to_uci nodes t)%string;
         ("bestmove " ++ move_to_uci MOVE_NONE)%string ].
Proof.
  intros Hrml Hbook score.
  assert (Hid : id_loop deepen in_check legal searchMoves
                = {| id_bestMove := MOVE_NONE;
                     id_ponderMove := MOVE_NONE;
                     id_stdout := [ ("info depth 0 score " ++ score)%string ];
                     id_StopRequest := false;
                     id_QuitRequest := false |}).
  { unfold id_loop. now rewrite Hrml. }
  split; [exact Hid|].
  unfold think. rewrite Hbook, Hid. simpl.
  now rewrite append_empty_r.
Qed.

End DriverFacts.

(** The stalemate of the end-to-end scenarios, answered to "go". *)
Lemma root_without_moves_witness :
  @id_loop Stockfish21 no_deepening false [] []
  = {| id_bestMove := 0; id_ponderMove := 0;
       id_stdout := [ "info depth 0 score cp 0"%string ];
       id_StopRequest := false; id_QuitRequest := false |}
  /\ fst (@think Stockfish21 false 0 false false false sample_move_to_uci
            0 1 no_deepening false [] [])
     = [ "info depth 0 score cp 0"%string;
         "info nodes 0 nps 0 time 1"%string;
         "bestmove 0000"%string ].
Proof.
  exact (@root_without_moves Stockfish21 false 0 false false false
           sample_move_to_uci 0 1 no_deepening false [] [] eq_refl eq_refl).
Defined.

(** The same root in check. *)
Example root_checkmated_line :
  id_stdout (@id_loop Stockfish21 no_deepening true [] [])
  = [ "info depth 0 score mate 0"%string ].
Proof. reflexivity. Qed.

(** ** The aspiration window *)

Lemma round_up_to_8_spec (x : Z) :
  (8 | round_up_to_8 x) /\ x <= round_up_to_8 x < x + 8.
Proof.
  unfold round_up_to_8. split.
  - exists ((x + 7) / 8). lia.
  - pose proof (Z.div_mod (x + 7) 8 ltac:(lia)).
    pose proof (Z.mod_pos_bound (x + 7) 8 ltac:(lia)). lia.
Qed.

Lemma clamp_16_24 (x : Z) : Z.min (Z.max x 16) 24 = clamp x 16 24.
Proof. unfold clamp. lia. Qed.

(** Clamped to [16, 24] and rounded up, the delta is 16 or 24. *)
Lemma aspiration_delta_values (x : Z) :
  round_up_to_8 (clamp x 16 24) = 16 \/ round_up_to_8 (clamp x 16 24) = 24.
Proof.
  destruct (round_up_to_8_spec (clamp x 16 24)) as [[k Hk] Hr].
  unfold clamp in *. lia.
Qed.

Section AspirationFacts.
Context {T : Types}.

Variable MultiPV : Z.

(** From depth 5 on and with a single PV the window of the code is
    the one of the specification. *)
Lemma aspiration_window_refines (depth : Z) (bestValues : Z -> Value)
    (aspirationDelta : Z) (alpha beta : Value) :
  MultiPV = 1 ->
  5 <= depth ->
  aspiration_window MultiPV depth bestValues aspirationDelta alpha beta
  = aspiration_window_spec depth bestValues.
Proof.
  intros Hpv Hd. unfold aspiration_window, aspiration_window_spec.
  rewrite Hpv, Z.eqb_refl.
  destruct (Z.geb_spec depth 5); [simpl | lia].
  set (p1 := bestValues (depth - 1) - bestValues (depth - 2)).
  set (p2 := bestValues (depth - 2) - bestValues (depth - 3)).
  rewrite (Z.quot_div_nonneg (Z.abs p2) 2) by lia.
  rewrite clamp_16_24.
  set (c := clamp (Z.abs p1 + Z.abs p2 / 2) 16 24).
  assert (Hc : 0 <= c + 7) by (unfold c, clamp; lia).
  rewrite (Z.quot_div_nonneg (c + 7) 8) by lia.
  replace ((c + 7) / 8 * 8) with (round_up_to_8 c)
    by (unfold round_up_to_8; lia).
  rewrite Z.geb_leb. reflexivity.
Qed.


(** *** The invariant of the aspiration loop *)

Lemma window_open_init (bestValues : Z -> Value)
    (ValueDraw LastValue : Value) :
  window_open MultiPV (id_loop_init bestValues ValueDraw LastValue).
Proof. split; simpl; [lia | auto]. Qed.

Lemma window_open_end_iteration (st : Id.t) (value : Value)
    (StopOnPonderhit : bool) :
  window_open MultiPV st ->
  window_open MultiPV (end_iteration st value StopOnPonderhit).
Proof. intros H. exact H. Qed.

(** The head of an iteration establishes the invariant: [LastValue]
    is only set below a known win and from depth 36 on, where the
    window has just been centred on the previous score. *)
Lemma window_inv_begin_iteration (st : Id.t) :
  window_open MultiPV st ->
  window_inv MultiPV (begin_iteration MultiPV st).
Proof.
  intros [Hdelta Hopen].
  pose proof mate_lt_infinite as Hinf.
  pose proof known_win_le_mate as Hkw.
  unfold window_inv, window_open, begin_iteration.
  set (d := Id.depth st + 1).
  set (bv := Id.bestValues st).
  destruct (Z.eq_dec MultiPV 1) as [Hpv|Hpv].
  - destruct (Z.le_gt_cases 5 d) as [Hd|Hd].
    + rewrite (aspiration_window_refines d bv _ _ _ Hpv Hd).
      unfold aspiration_window_spec.
      destruct (aspiration_delta_values
                  (Z.abs (bv (d - 1) - bv (d - 2))
                   + Z.abs (bv (d - 2) - bv (d - 3)) / 2)) as [E|E];
        rewrite E;
        destruct (Z.leb_spec VALUE_KNOWN_WIN (Z.abs (bv (d - 1))));
        cbn [Id.aspirationDelta Id.alpha Id.beta Id.LastValue
             Id.bestValues Id.depth];
        (split; [split; [lia | intros; contradiction]|]);
        intros HL;
        replace (d - 1) with (Id.depth st) in * by (unfold d; lia);
        try (exfalso; apply HL; split_cmp; simpl; try reflexivity; lia);
        (split; [lia | split; lia]).
    + unfold aspiration_window. rewrite Hpv, Z.eqb_refl.
      destruct (Z.geb_spec d 5); [lia|].
      cbn [andb Id.aspirationDelta Id.alpha Id.beta Id.LastValue
           Id.bestValues Id.depth].
      split; [split; [lia | intros; contradiction]|].
      intros HL. exfalso. apply HL.
      destruct (Z.geb_spec d 36); [lia | reflexivity].
  - unfold aspiration_window.
    destruct (Z.eqb_spec MultiPV 1); [contradiction|].
    cbn [andb Id.aspirationDelta Id.alpha Id.beta Id.LastValue
         Id.bestValues Id.depth].
    destruct (Hopen Hpv) as [Ha Hb].
    split; [split; [lia | auto]|].
    intros HL. rewrite Ha, Hb.
    split; [|split; right; reflexivity].
    destruct (Z.ltb_spec (Z.abs (bv (d - 1))) VALUE_KNOWN_WIN); [lia|].
    exfalso. apply HL. now rewrite !andb_false_r.
Qed.

(** A pass keeps the invariant, whether it asks for a re-search or
    ends the loop. *)
Lemma window_inv_pass (st : Id.t) (a : RootAnswer) :
  window_inv MultiPV st ->
  match aspiration_pass st a with
  | Research st' => window_inv MultiPV st'
  | Accept st' _ => window_open MultiPV st'
  end.
Proof.
  intros [[Hdelta Hopen] Hlast].
  assert (Hgrow : 0 <= Id.aspirationDelta st
                       + Z.quot (Id.aspirationDelta st) 2).
  { rewrite Z.quot_div_nonneg by lia.
    pose proof (Z.div_pos (Id.aspirationDelta st) 2 Hdelta ltac:(lia)).
    lia. }
  unfold aspiration_pass.
  destruct (ans_StopRequest a); [split; assumption|].
  set (value := settled_value st (ans_value a)).
  destruct (value >=? Id.beta st).
  - destruct (Z.abs value <? VALUE_KNOWN_WIN);
      unfold window_inv, window_open;
      cbn [Id.aspirationDelta Id.alpha Id.beta Id.LastValue
           Id.bestValues Id.depth].
    + split; [split; [lia|]|].
      * intros Hpv. destruct (Hopen Hpv) as [Ha Hb]. split; [exact Ha|].
        rewrite Hb. lia.
      * intros HL. destruct (Hlast HL) as [Hk [Ha Hb]].
        split; [exact Hk|]. split; [exact Ha|]. lia.
    + split; [lia|].
      intros Hpv. destruct (Hopen Hpv) as [Ha Hb]. split; [exact Ha|].
      rewrite Hb. lia.
  - destruct (value <=? Id.alpha st).
    + destruct (Z.abs value <? VALUE_KNOWN_WIN);
        unfold window_inv, window_open;
        cbn [Id.aspirationDelta Id.alpha Id.beta Id.LastValue
             Id.bestValues Id.depth].
      * split; [split; [lia|]|].
        -- intros Hpv. destruct (Hopen Hpv) as [Ha Hb]. split; [|exact Hb].
           rewrite Ha. lia.
        -- intros HL. destruct (Hlast HL) as [Hk [Ha Hb]].
           split; [exact Hk|]. split; [lia | exact Hb].
      * split; [lia|].
        intros Hpv. destruct (Hopen Hpv) as [Ha Hb]. split; [|exact Hb].
        rewrite Ha. lia.
    + split; assumption.
Qed.

(** Every state in which [id_loop] calls the root search satisfies the
    invariant. *)
Lemma id_reach_inv (st : Id.t) :
  id_reach MultiPV st -> window_inv MultiPV st.
Proof.
  induction 1 as [bv vd lv | st st' a _ IH Hpass
                  | st st' a value sop _ IH Hpass Hdepth].
  - apply window_inv_begin_iteration, window_open_init.
  - pose proof (window_inv_pass st a IH) as H. now rewrite Hpass in H.
  - pose proof (window_inv_pass st a IH) as H. rewrite Hpass in H.
    apply window_inv_begin_iteration, window_open_end_iteration, H.
Qed.

(** A known-win result that leaves the window is never the one-point
    neighbour of the previous score that [settled_value] replaces. *)
Lemma settled_value_known_win (st : Id.t) (v : Value) :
  window_inv MultiPV st ->
  VALUE_KNOWN_WIN <= Z.abs v ->
  Id.beta st <= v \/ v <= Id.alpha st ->
  settled_value st v = v.
Proof.
  intros [_ Hlast] Hkw Hout. unfold settled_value.
  pose proof mate_lt_infinite as Hinf.
  pose proof known_win_le_mate as Hk.
  destruct (Z.eqb_spec (Id.LastValue st) VALUE_NONE) as [|HL];
    [reflexivity|].
  destruct (Z.eqb_spec
              (Z.abs (v - Id.bestValues st (Id.depth st - 1))) 1)
    as [E|]; [|reflexivity].
  exfalso. destruct (Hlast HL) as [Hprev [Ha Hb]]. lia.
Qed.

(** C10, as amended: in every state in which [id_loop] calls the root
    search, a result whose magnitude reaches VALUE_KNOWN_WIN ends the
    aspiration loop in that very pass, without re-search: the answers
    of later searches are left untouched.  When the result failed high
    or low against the window it is itself the value of the
    iteration, stored in [bestValues[depth]].  The window is not left
    as it was: unless the search was stopped, the accepting pass has
    already moved the bound that failed by [aspirationDelta] (up to
    the infinite score) and raised [aspirationDelta] by half, as a
    pass that asks for a re-search does. *)
Theorem known_win_ends_aspiration (st : Id.t) (a : RootAnswer)
    (rest : list RootAnswer) :
  id_reach MultiPV st ->
  VALUE_KNOWN_WIN <= Z.abs (ans_value a) ->
  exists (st' : Id.t) (value : Value),
    aspiration_pass st a = Accept st' value
    /\ aspiration_loop (a :: rest) st = Some (st', value, rest)
    /\ (Id.beta st <= ans_value a \/ ans_value a <= Id.alpha st ->
        value = ans_value a
        /\ forall sop : bool,
             Id.bestValues (end_iteration st' value sop) (Id.depth st)
             = ans_value a)
    /\ (ans_StopRequest a = false ->
        (Id.beta st <= ans_value a ->
         Id.alpha st' = Id.alpha st
         /\ Id.beta st'
            = Z.min (Id.beta st + Id.aspirationDelta st) VALUE_INFINITE
         /\ Id.aspirationDelta st'
            = Id.aspirationDelta st + Z.quot (Id.aspirationDelta st) 2)
        /\ (ans_value a < Id.beta st ->
            ans_value a <= Id.alpha st ->
            Id.alpha st'
            = Z.max (Id.alpha st - Id.aspirationDelta st)
                (- VALUE_INFINITE)
            /\ Id.beta st' = Id.beta st
            /\ Id.aspirationDelta st'
               = Id.aspirationDelta st
                 + Z.quot (Id.aspirationDelta st) 2))
    /\ (ans_StopRequest a = true ->
        Id.alpha st' = Id.alpha st /\ Id.beta st' = Id.beta st).
Proof.
  intros Hreach Hkw. apply id_reach_inv in Hreach.
  pose proof mate_lt_infinite as Hinf.
  pose proof known_win_le_mate as Hk.
  assert (Hpass : exists st' value,
             aspiration_pass st a = Accept st' value
             /\ Id.depth st' = Id.depth st
             /\ (Id.beta st <= ans_value a \/ ans_value a <= Id.alpha st ->
                 value = ans_value a)
             /\ (ans_StopRequest a = false ->
                 (Id.beta st <= ans_value a ->
                  Id.alpha st' = Id.alpha st
                  /\ Id.beta st'
                     = Z.min (Id.beta st + Id.aspirationDelta st)
                         VALUE_INFINITE
                  /\ Id.aspirationDelta st'
                     = Id.aspirationDelta st
                       + Z.quot (Id.aspirationDelta st) 2)
                 /\ (ans_value a < Id.beta st ->
                     ans_value a <= Id.alpha st ->
                     Id.alpha st'
                     = Z.max (Id.alpha st - Id.aspirationDelta st)
                         (- VALUE_INFINITE)
                     /\ Id.beta st' = Id.beta st
                     /\ Id.aspirationDelta st'
                        = Id.aspirationDelta st
                          + Z.quot (Id.aspirationDelta st) 2))
             /\ (ans_StopRequest a = true ->
                 Id.alpha st' = Id.alpha st /\ Id.beta st' = Id.beta st)).
  { unfold aspiration_pass.
    destruct (ans_StopRequest a).
    { eexists; eexists; split; [reflexivity|].
      split; [reflexivity|]. split; [auto|].
      split; [discriminate|]. intros _. split; reflexivity. }
    destruct (Z.le_gt_cases (Id.beta st) (ans_value a)) as [Hhigh|Hhigh];
      [|destruct (Z.le_gt_cases (ans_value a) (Id.alpha st)) as [Hlow|Hlow]].
    - rewrite (settled_value_known_win st _ Hreach Hkw (or_introl Hhigh)).
      destruct (Z.geb_spec (ans_value a) (Id.beta st)); [|lia].
      destruct (Z.ltb_spec (Z.abs (ans_value a)) VALUE_KNOWN_WIN); [lia|].
      eexists; eexists; split; [reflexivity|].
      split; [reflexivity|]. split; [auto|].
      split; [|discriminate]. intros _. split.
      + intros _. repeat split.
      + intros Hbelow. lia.
    - rewrite (settled_value_known_win st _ Hreach Hkw (or_intror Hlow)).
      destruct (Z.geb_spec (ans_value a) (Id.beta st)); [lia|].
      destruct (Z.leb_spec (ans_value a) (Id.alpha st)); [|lia].
      destruct (Z.ltb_spec (Z.abs (ans_value a)) VALUE_KNOWN_WIN); [lia|].
      eexists; eexists; split; [reflexivity|].
      split; [reflexivity|]. split; [auto|].
      split; [|discriminate]. intros _. split.
      + intros Habove. lia.
      + intros _ _. repeat split.
    - set (value := settled_value st (ans_value a)).
      assert (Hin : Id.alpha st < value < Id.beta st).
      { unfold value, settled_value.
        destruct (Z.eqb_spec (Id.LastValue st) VALUE_NONE) as [|HL];
          [simpl; lia|].
        destruct (Z.eqb_spec
                    (Z.abs (ans_value a
                            - Id.bestValues st (Id.depth st - 1))) 1);
          [|simpl; lia].
        simpl. destruct Hreach as [_ Hlast].
        destruct (Hlast HL) as [Hprev [Ha Hb]]. lia. }
      destruct (Z.geb_spec value (Id.beta st)); [lia|].
      destruct (Z.leb_spec value (Id.alpha st)); [lia|].
      eexists; eexists; split; [reflexivity|]. split; [reflexivity|].
      split; [intros [Hout|Hout]; lia|].
      split; [|discriminate]. intros _. split.
      + intros Habove. lia.
      + intros _ Hbelow. lia. }
  destruct Hpass as [st' [value [Hpass [Hdepth [Hvalue [Hmoved Hstop]]]]]].
  exists st', value. split; [exact Hpass|]. split.
  - simpl. now rewrite Hpass.
  - split; [|split; [exact Hmoved | exact Hstop]].
    intros Hout. specialize (Hvalue Hout). split; [exact Hvalue|].
    intros sop. simpl. rewrite Hdepth, Z.eqb_refl. exact Hvalue.
Qed.

(** The bound that failed is moved once by the pass that accepts the
    score: here the upper one. *)
Lemma known_win_fail_high_window (st : Id.t) (a : RootAnswer) :
  ans_StopRequest a = false ->
  settled_value st (ans_value a) = ans_value a ->
  Id.beta st <= ans_value a ->
  VALUE_KNOWN_WIN <= Z.abs (ans_value a) ->
  exists st',
    aspiration_pass st a = Accept st' (ans_value a)
    /\ Id.alpha st' = Id.alpha st
    /\ Id.beta st'
       = Z.min (Id.beta st + Id.aspirationDelta st) VALUE_INFINITE.
Proof.
  intros Hstop Hset Hhigh Hkw. unfold aspiration_pass.
  rewrite Hstop, Hset.
  destruct (Z.geb_spec (ans_value a) (Id.beta st)); [|lia].
  destruct (Z.ltb_spec (Z.abs (ans_value a)) VALUE_KNOWN_WIN); [lia|].
  eexists. split; [reflexivity|]. split; reflexivity.
Qed.

End AspirationFacts.


Lemma reach_next_iteration {T : Types} (st st' : Id.t) (v value : Value) :
  id_reach 1 st ->
  aspiration_pass st (answer v) = Accept st' value ->
  Id.depth st' < PLY_MAX ->
  id_reach 1 (next_iteration st v).
Proof.
  intros Hreach Hpass Hdepth. unfold next_iteration. rewrite Hpass.
  now apply (reach_next 1 st st' (answer v) value false).
Qed.

Lemma fifth_iteration_reached : @id_reach Stockfish21 1 fifth_iteration.
Proof.
  unfold fifth_iteration.
  do 4 (eapply reach_next_iteration;
        [| vm_compute; reflexivity | vm_compute; reflexivity]).
  apply reach_first.
Qed.

Example fifth_iteration_window :
  (Id.depth fifth_iteration, Id.aspirationDelta fifth_iteration,
   Id.alpha fifth_iteration, Id.beta fifth_iteration)
  = (5, 24, 16, 64).
Proof. reflexivity. Qed.

(** A fail high below a known win asks for a re-search on the wider
    window; one at 20000 ends the loop with that score. *)
Example fail_high_researches :
  match @aspiration_pass Stockfish21 fifth_iteration (answer 100) with
  | Research st' => (Id.alpha st', Id.beta st') = (16, 88)
  | Accept _ _ => False
  end.
Proof. vm_compute. reflexivity. Qed.

Example known_win_fail_high_accepted :
  match @aspiration_pass Stockfish21 fifth_iteration (answer 20000) with
  | Research _ => False
  | Accept st' value =>
      (value, Id.alpha st', Id.beta st') = (20000, 16, 88)
  end.
Proof. vm_compute. reflexivity. Qed.

Lemma known_win_ends_aspiration_witness :
  @id_reach Stockfish21 1 fifth_iteration
  /\ @VALUE_KNOWN_WIN Stockfish21 <= Z.abs (ans_value (answer 20000))
  /\ exists (st' : Id.t) (value : Value),
       @aspiration_pass Stockfish21 fifth_iteration (answer 20000)
       = Accept st' value
       /\ @aspiration_loop Stockfish21 [answer 20000; answer 50]
            fifth_iteration
          = Some (st', value, [answer 50])
       /\ (Id.beta fifth_iteration <= ans_value (answer 20000)
           \/ ans_value (answer 20000) <= Id.alpha fifth_iteration ->
           value = ans_value (answer 20000)
           /\ forall sop : bool,
                Id.bestValues (end_iteration st' value sop)
                  (Id.depth fifth_iteration)
                = ans_value (answer 20000))
       /\ (ans_StopRequest (answer 20000) = false ->
           (Id.beta fifth_iteration <= ans_value (answer 20000) ->
            Id.alpha st' = Id.alpha fifth_iteration
            /\ Id.beta st'
               = Z.min (Id.beta fifth_iteration
                        + Id.aspirationDelta fifth_iteration)
                   (@VALUE_INFINITE Stockfish21)
            /\ Id.aspirationDelta st'
               = Id.aspirationDelta fifth_iteration
                 + Z.quot (Id.aspirationDelta fifth_iteration) 2)
           /\ (ans_value (answer 20000) < Id.beta fifth_iteration ->
               ans_value (answer 20000) <= Id.alpha fifth_iteration ->
               Id.alpha st'
               = Z.max (Id.alpha fifth_iteration
                        - Id.aspirationDelta fifth_iteration)
                   (- @VALUE_INFINITE Stockfish21)
               /\ Id.beta st' = Id.beta fifth_iteration
               /\ Id.aspirationDelta st'
                  = Id.aspirationDelta fifth_iteration
                    + Z.quot (Id.aspirationDelta fifth_iteration) 2))
       /\ (ans_StopRequest (answer 20000) = true ->
           Id.alpha st' = Id.alpha fifth_iteration
           /\ Id.beta st' = Id.beta fifth_iteration).
Proof.
  split; [exact fifth_iteration_reached|].
  split; [vm_compute; discriminate|].
  exact (@known_win_ends_aspiration Stockfish21 1 fifth_iteration
           (answer 20000) [answer 50] fifth_iteration_reached
           (fun H : (15000 ?= 20000) = Gt => ltac:(discriminate H))).
Defined.

(** The claim as it stands, with "without further window widening"
    read as: the pass that accepts the score leaves [alpha] and [beta]
    as they were.  In the fifth iteration, on the window (16, 64), the
    answer 20000 is accepted with the window (16, 88). *)
Lemma known_win_ends_aspiration_counterexample :
  ~ (forall (st : Id.t) (a : RootAnswer),
       @id_reach Stockfish21 1 st ->
       @VALUE_KNOWN_WIN Stockfish21 <= Z.abs (ans_value a) ->
       Id.beta st <= ans_value a \/ ans_value a <= Id.alpha st ->
       exists (st' : Id.t) (value : Value),
         @aspiration_pass Stockfish21 st a = Accept st' value
         /\ value = ans_value a
         /\ Id.alpha st' = Id.alpha st
         /\ Id.beta st' = Id.beta st).
Proof.
  intros H.
  destruct (H fifth_iteration (answer 20000) fifth_iteration_reached)
    as [st' [value [Hpass [_ [_ Hbeta]]]]].
  - vm_compute. discriminate.
  - left. vm_compute. discriminate.
  - vm_compute in Hpass. injection Hpass as <- _.
    vm_compute in Hbeta. discriminate Hbeta.
Qed.

(** ** Entries that disagree with the in-check status *)

Section TTConsistency.
Context {T : Types}.

Variable PvNode : NodeType.
Variable Root : bool.
Variable pos : Position.
Variable eng : Engine.
Variable depth : Depth.
Variable ss_prev : SearchStack.t.
Variable qsearch_here :
  SearchStack.t -> Value -> Value -> Depth -> Value * SearchStack.t.
Variable picker : Move -> Depth -> list Move.
Variable child : Move -> Value -> Value -> Depth -> Value.

(** The test, spelled out: in check the entry must carry VALUE_NONE as
    static value and as margin, out of check neither may be
    VALUE_NONE. *)
Lemma static_value_mismatch_iff (inCheck : bool) (e : TTEntry.t) :
  static_value_mismatch inCheck e = false <->
  if inCheck
  then TTEntry.static_value e = VALUE_NONE
       /\ TTEntry.static_value_margin e = VALUE_NONE
  else TTEntry.static_value e <> VALUE_NONE
       /\ TTEntry.static_value_margin e <> VALUE_NONE.
Proof.
  unfold static_value_mismatch.
  destruct inCheck; simpl;
    destruct (Z.eqb_spec (TTEntry.static_value e) VALUE_NONE);
    destruct (Z.eqb_spec (TTEntry.static_value_margin e) VALUE_NONE);
    simpl; intuition congruence.
Qed.

Lemma drop_mismatch_probed (e : TTEntry.t) :
  static_value_mismatch (in_check pos) e = true ->
  drop_mismatch (in_check pos) (snd (probed_move pos (Some e))) = None.
Proof.
  intros H. unfold probed_move.
  destruct (truthy (TTEntry.move e));
    [destruct (move_is_pseudo_legal pos (TTEntry.move e))|];
    simpl; try rewrite H; reflexivity.
Qed.

(** Without entry Step 5 evaluates the position and stores the
    evaluation, out of check; in check it records that there is none. *)
Lemma step5_without_entry (l : Locals.t) :
  Locals.tte l = None ->
  step5 pos l
  = if in_check pos
    then Continue
           (with_eval (Locals.refinedValue l)
              (SearchStack.set_eval VALUE_NONE VALUE_NONE (Locals.ss l))
              (Locals.tt_stores l) l)
    else Continue
           (with_eval (fst (evaluate pos))
              (SearchStack.set_eval (fst (evaluate pos))
                 (snd (evaluate pos)) (Locals.ss l))
              ({| st_key := Locals.posKey l;
                  st_value := VALUE_NONE;
                  st_type := VALUE_TYPE_NONE;
                  st_depth := DEPTH_NONE;
                  st_move := MOVE_NONE;
                  st_static_value := fst (evaluate pos);
                  st_static_value_margin := snd (evaluate pos) |}
               :: Locals.tt_stores l) l).
Proof.
  intros H. unfold step5. rewrite H.
  destruct (in_check pos); [reflexivity|].
  now destruct (evaluate pos).
Qed.

(** What is left of a probed entry as TT move: its move when it has
    one that is pseudo-legal, no move otherwise. *)
Lemma probed_move_kept (e : TTEntry.t) :
  fst (probed_move pos (Some e))
  = if truthy (TTEntry.move e) && move_is_pseudo_legal pos (TTEntry.move e)
    then TTEntry.move e else MOVE_NONE.
Proof.
  unfold probed_move.
  destruct (truthy (TTEntry.move e));
    [destruct (move_is_pseudo_legal pos (TTEntry.move e))|]; reflexivity.
Qed.

(** C9, as amended: an entry whose static value or margin disagrees
    with the in-check status of the position is dropped right after
    the probe, in [search] and in [qsearch]: [tte] is null from there
    on, so that the early return on a table score is not taken, and
    the evaluation is made afresh (or marked absent in check) with no
    refinement by the stored bound.  The hit is not a miss in every
    respect: the move of the entry, read before the test, stays the
    TT move of the node whenever it is a pseudo-legal move (away from
    the root, where the TT move is the first root move). *)
Theorem mismatched_entry_is_dropped (e : TTEntry.t) :
  static_value_mismatch (in_check pos) e = true ->
  (forall l : Locals.t,
     probe eng (search_key pos (SearchStack.excludedMove (Locals.ss l)))
       = Some e ->
     let l' := tt_lookup Root pos eng l in
     Locals.tte l' = None
     /\ tt_cutoff PvNode Root pos depth l' = Continue l'
     /\ search_after_lookup PvNode Root pos eng depth qsearch_here l'
        = (if in_check pos
           then Continue
                  (with_eval (Locals.refinedValue l')
                     (SearchStack.set_eval VALUE_NONE VALUE_NONE
                        (Locals.ss l'))
                     (Locals.tt_stores l') l')
           else Continue
                  (with_eval (fst (evaluate pos))
                     (SearchStack.set_eval (fst (evaluate pos))
                        (snd (evaluate pos)) (Locals.ss l'))
                     ({| st_key := Locals.posKey l';
                         st_value := VALUE_NONE;
                         st_type := VALUE_TYPE_NONE;
                         st_depth := DEPTH_NONE;
                         st_move := MOVE_NONE;
                         st_static_value := fst (evaluate pos);
                         st_static_value_margin := snd (evaluate pos) |}
                      :: Locals.tt_stores l') l'))
          >>> step6 PvNode pos depth qsearch_here
          >>> step7 PvNode pos eng depth
     /\ Locals.ttMove l'
        = (if Root then Rml_pv0 eng 0
           else if truthy (TTEntry.move e)
                   && move_is_pseudo_legal pos (TTEntry.move e)
                then TTEntry.move e else MOVE_NONE))
  /\ (probe eng (get_key pos) = Some e ->
      snd (qsearch_lookup pos eng) = None
      /\ fst (qsearch_lookup pos eng)
         = (if truthy (TTEntry.move e)
               && move_is_pseudo_legal pos (TTEntry.move e)
            then TTEntry.move e else MOVE_NONE)
      /\ forall (alpha beta : Value) (d : Depth) (ss : SearchStack.t),
           qsearch PvNode pos eng ss_prev picker child alpha beta d ss
           = let ss' :=
               SearchStack.set_ply (SearchStack.ply ss_prev + 1)
                 (SearchStack.set_currentMove MOVE_NONE ss) in
             if (SearchStack.ply ss' >? PLY_MAX) || is_draw pos
             then (VALUE_DRAW, ss', [])
             else qsearch_after_lookup PvNode pos ss_prev picker child
                    alpha beta d ss' (fst (probed_move pos (Some e)))
                    None).
Proof.
  intros Hbad. split.
  - intros l Hprobe l'.
    assert (Htte : Locals.tte l' = None).
    { unfold l', tt_lookup. rewrite Hprobe.
      pose proof (drop_mismatch_probed e Hbad) as Hd.
      destruct Root.
      - cbn. now rewrite Hbad.
      - destruct (probed_move pos (Some e)) as [m o].
        cbn in Hd |- *. exact Hd. }
    assert (Hcut : tt_cutoff PvNode Root pos depth l' = Continue l')
      by (unfold tt_cutoff; now rewrite Htte).
    split; [exact Htte|]. split; [exact Hcut|]. split.
    + unfold search_after_lookup. rewrite Hcut. simpl.
      now rewrite (step5_without_entry l' Htte).
    + rewrite <- probed_move_kept. unfold l', tt_lookup. rewrite Hprobe.
      destruct Root; [reflexivity|].
      destruct (probed_move pos (Some e)) as [m o]. reflexivity.
  - intros Hprobe.
    assert (Hlook : qsearch_lookup pos eng
                    = (fst (probed_move pos (Some e)), None)).
    { unfold qsearch_lookup. rewrite Hprobe.
      pose proof (drop_mismatch_probed e Hbad) as Hd.
      destruct (probed_move pos (Some e)). simpl in *. now rewrite Hd. }
    split; [now rewrite Hlook|].
    split; [rewrite Hlook; apply probed_move_kept|].
    intros alpha beta d ss. unfold qsearch. now rewrite Hlook.
Qed.

End TTConsistency.

(** A node out of check, NonPV, depth 2, window (99, 100).  The deep
    lower bound 500 cuts it when the entry carries a static
    evaluation; stored without one it is dropped, and the node
    evaluates the position (40) and goes on. *)
Example consistent_entry_cuts :
  @search_head Stockfish21 NonPV false quiet_position
    (engine_with (Some quiet_entry)) 2 (frame_at 3) fail_low_qsearch
    99 100 (frame_at 0)
  = Return 500 (SearchStack.set_ply 4 (frame_at 0))
      [ {| st_key := 1001; st_value := 500; st_type := VALUE_TYPE_LOWER;
           st_depth := 10; st_move := 0; st_static_value := 40;
           st_static_value_margin := 16 |} ].
Proof. vm_compute. reflexivity. Qed.

Example mismatched_entry_evaluates :
  match @search_head Stockfish21 NonPV false quiet_position
          (engine_with (Some check_entry)) 2 (frame_at 3) fail_low_qsearch
          99 100 (frame_at 0) with
  | Continue l =>
      (Locals.tte l, Locals.refinedValue l,
       SearchStack.eval (Locals.ss l)) = (None, 40, 40)
  | Return _ _ _ => False
  end.
Proof. vm_compute. reflexivity. Qed.

(** The move of a dropped entry is still the TT move of the node. *)
Example dropped_entry_keeps_move :
  Locals.ttMove
    (@tt_lookup Stockfish21 false quiet_position
       (engine_with
          (Some {| TTEntry.move := 796; TTEntry.value := 500;
                   TTEntry.type := VALUE_TYPE_LOWER; TTEntry.depth := 10;
                   TTEntry.static_value := 30002;
                   TTEntry.static_value_margin := 30002 |}))
       (locals_at 99 100 0 4))
  = 796.
Proof. reflexivity. Qed.

Lemma mismatched_entry_is_dropped_witness :
  Locals.tte
    (@tt_lookup Stockfish21 false quiet_position
       (engine_with (Some move_only_entry)) (locals_at 99 100 0 4)) = None
  /\ Locals.ttMove
       (@tt_lookup Stockfish21 false quiet_position
          (engine_with (Some move_only_entry)) (locals_at 99 100 0 4))
     = (if truthy (TTEntry.move move_only_entry)
           && move_is_pseudo_legal quiet_position
                (TTEntry.move move_only_entry)
        then TTEntry.move move_only_entry else MOVE_NONE)
  /\ snd (@qsearch_lookup Stockfish21 quiet_position
            (engine_with (Some move_only_entry))) = None.
Proof.
  pose proof (@mismatched_entry_is_dropped Stockfish21 NonPV false
                quiet_position (engine_with (Some move_only_entry)) 2
                (frame_at 3) fail_low_qsearch no_moves quiet_child
                move_only_entry eq_refl) as [Hs Hq].
  split; [|split].
  - exact (proj1 (Hs (locals_at 99 100 0 4) eq_refl)).
  - exact (proj2 (proj2 (proj2 (Hs (locals_at 99 100 0 4) eq_refl)))).
  - exact (proj1 (Hq eq_refl)).
Defined.

(** The claim as it stands, with "treated as a miss" read as: the
    node leaves the lookup as it would with no entry in the table.
    With the move-only entry of [insert_pv_in_tt] the node out of
    check drops the entry and keeps 796 as its TT move, where a miss
    leaves none; the same holds in [qsearch]. *)
Lemma mismatched_entry_is_dropped_counterexample :
  ~ (forall (pos : Position) (eng eng' : Engine) (e : TTEntry.t)
            (l : Locals.t),
       @static_value_mismatch Stockfish21 (in_check pos) e = true ->
       probe eng (search_key pos (SearchStack.excludedMove (Locals.ss l)))
         = Some e ->
       probe eng' (search_key pos (SearchStack.excludedMove (Locals.ss l)))
         = None ->
       probe eng (get_key pos) = Some e ->
       probe eng' (get_key pos) = None ->
       @tt_lookup Stockfish21 false pos eng l
         = @tt_lookup Stockfish21 false pos eng' l
       /\ @qsearch_lookup Stockfish21 pos eng
          = @qsearch_lookup Stockfish21 pos eng').
Proof.
  intros H.
  destruct (H quiet_position (engine_with (Some move_only_entry))
              (engine_with None) move_only_entry (locals_at 99 100 0 4)
              eq_refl eq_refl eq_refl eq_refl eq_refl) as [Hs _].
  vm_compute in Hs. discriminate Hs.
Qed.

(** The two lookups on that entry and on a miss. *)
Example move_only_entry_lookup :
  (Locals.tte
     (@tt_lookup Stockfish21 false quiet_position
        (engine_with (Some move_only_entry)) (locals_at 99 100 0 4)),
   Locals.ttMove
     (@tt_lookup Stockfish21 false quiet_position
        (engine_with (Some move_only_entry)) (locals_at 99 100 0 4)),
   Locals.ttMove
     (@tt_lookup Stockfish21 false quiet_position
        (engine_with None) (locals_at 99 100 0 4)),
   @qsearch_lookup Stockfish21 quiet_position
     (engine_with (Some move_only_entry)),
   @qsearch_lookup Stockfish21 quiet_position (engine_with None))
  = (None, 796, 0, (796, None), (0, None)).
Proof. vm_compute. reflexivity. Qed.

(** * Further properties *)

(** ** Principal variations *)

Lemma pv_moves_no_NONE (pv : list Move) : ~ In MOVE_NONE (pv_moves pv).
Proof.
  induction pv as [|m rest IH]; simpl; [tauto|].
  destruct (Z.eqb_spec m MOVE_NONE); simpl; [tauto|].
  intros [E|H]; [congruence | exact (IH H)].
Qed.

(** Reading a line that was copied and closed gives the line. *)
Lemma pv_moves_closed (line rest : list Move) :
  ~ In MOVE_NONE line ->
  pv_moves (line ++ MOVE_NONE :: rest) = line.
Proof.
  induction line as [|m line IH]; simpl; intros H; [reflexivity|].
  destruct (Z.eqb_spec m MOVE_NONE) as [E|_]; [exfalso; auto|].
  rewrite IH; [reflexivity | tauto].
Qed.

(** X1: the buffer [update_pv] writes is the move, the line of the
    child and one closing MOVE_NONE, so that a reader sees the move
    followed by the line of the child (by the move alone when the
    child has no PV buffer). *)
(** X1: [update_pv] writes the move, then the child's line up to its
    first MOVE_NONE, then MOVE_NONE; for a move that is not MOVE_NONE
    the line read back from the buffer is the move followed by the
    child's line. *)
Theorem update_pv_line (move : Move) (childPv : option (list Move)) :
  move <> MOVE_NONE ->
  let child :=
    match childPv with Some c => pv_moves c | None => [] end in
  update_pv move childPv = (move :: child) ++ [MOVE_NONE]
  /\ ~ In MOVE_NONE (move :: child)
  /\ pv_moves (update_pv move childPv) = move :: child.
Proof.
  intros Hmove child.
  assert (Hline : ~ In MOVE_NONE (move :: child)).
  { intros [E|H]; [congruence|].
    unfold child in H. destruct childPv as [c|]; [|exact H].
    exact (pv_moves_no_NONE c H). }
  split; [reflexivity|]. split; [exact Hline|].
  change (update_pv move childPv) with ((move :: child) ++ [MOVE_NONE]).
  now apply pv_moves_closed.
Qed.

Lemma update_pv_line_witness :
  796 <> MOVE_NONE
  /\ pv_moves (update_pv 796 (Some [812; 1330; 0; 55])) = [796; 812; 1330].
Proof.
  split; [discriminate|].
  exact (proj2 (proj2 (update_pv_line 796 (Some [812; 1330; 0; 55])
                         ltac:(discriminate)))).
Defined.

(** ** Extensions *)

Section ExtensionFacts.
Context {T : Types}.

Variable QueenValueMidgame : Value.
Variable RANK_4 : Z.
Variable RANK_7 : Z.

(** X2: the extension of a move lies between DEPTH_ZERO and ONE_PLY;
    a checking move is always dangerous, and so is every move that is
    extended at all, which keeps extended moves out of the futility
    pruning of Step 12. *)
Theorem extension_bounds (PvNode : NodeType) (f : ExtensionFacts)
    (captureOrPromotion moveIsCheck : bool) :
  0 <= ONE_PLY ->
  let r := extension QueenValueMidgame RANK_4 RANK_7 PvNode f
             captureOrPromotion moveIsCheck in
  DEPTH_ZERO <= fst r <= ONE_PLY
  /\ (moveIsCheck = true -> snd r = true)
  /\ (DEPTH_ZERO < fst r -> snd r = true).
Proof.
  intros Hply r. subst r. unfold extension, DEPTH_ZERO.
  assert (Hhalf : 0 <= Z.quot ONE_PLY 2) by (apply Z.quot_pos; lia).
  assert (Hone : Z.quot ONE_PLY 1 = ONE_PLY) by apply Z.quot_1_r.
  destruct PvNode; cbn [CheckExtension PawnEndgameExtension
                        PawnPushTo7thExtension PassedPawnExtension];
    unfold DEPTH_ZERO; rewrite ?Hone;
    destruct moveIsCheck; cbn [andb];
    repeat match goal with
           | |- context [if ?b then _ else _] => destruct b
           end;
    cbn [fst snd];
    (split; [lia | split; intros; (reflexivity || lia)]).
Qed.

End ExtensionFacts.

Lemma extension_bounds_witness :
  0 <= @ONE_PLY Stockfish21
  /\ (let r := @extension Stockfish21 2521 3 6 PV pawn_to_7th false false in
      DEPTH_ZERO <= fst r <= @ONE_PLY Stockfish21
      /\ (false = true -> snd r = true)
      /\ (DEPTH_ZERO < fst r -> snd r = true)).
Proof.
  split; [discriminate|].
  exact (@extension_bounds Stockfish21 2521 3 6 PV pawn_to_7th false false
           ltac:(discriminate)).
Defined.

Example extension_pawn_to_7th :
  @extension Stockfish21 2521 3 6 PV pawn_to_7th false false = (2, true)
  /\ @extension Stockfish21 2521 3 6 NonPV pawn_to_7th false false
     = (1, true).
Proof. split; reflexivity. Qed.

(** ** Reading a stored bound *)

Section ReadingFacts.
Context {T : Types}.

(** X3: [refine_eval] takes from the entry what its bound kind can
    prove about the static evaluation: an exact score replaces it, a
    lower bound can only raise it, an upper bound can only lower it,
    and an entry without bound leaves it alone. *)
Theorem refine_eval_by_kind (tte : TTEntry.t) (defaultEval : Value)
    (ply : Z) :
  let v := value_from_tt (TTEntry.value tte) ply in
  refine_eval tte defaultEval ply
  = match TTEntry.type tte with
    | VALUE_TYPE_NONE => defaultEval
    | VALUE_TYPE_UPPER => Z.min v defaultEval
    | VALUE_TYPE_LOWER => Z.max v defaultEval
    | VALUE_TYPE_EXACT => v
    end.
Proof.
  intros v. unfold refine_eval. fold v.
  destruct (TTEntry.type tte); cbn [vt_and vt_bits truthy Z.land Z.lor];
    simpl; split_cmp; simpl; lia.
Qed.

Lemma existsb_weaken {A : Type} (p q : A -> bool) (l : list A) :
  (forall x, p x = true -> q x = true) ->
  existsb p l = true -> existsb q l = true.
Proof.
  intros Hpq. rewrite !existsb_exists.
  intros [x [Hin Hp]]. exists x. auto.
Qed.

(** X4: a check that is dangerous stays so when the futility base
    grows or beta shrinks: the test only compares the material newly
    attacked with the gap between the two. *)
Theorem check_is_dangerous_monotone (pos : Position) (move : Move)
    (futilityBase futilityBase' beta beta' : Value) :
  futilityBase <= futilityBase' ->
  beta' <= beta ->
  check_is_dangerous pos move futilityBase beta = true ->
  check_is_dangerous pos move futilityBase' beta' = true.
Proof.
  intros Hbase Hbeta. unfold check_is_dangerous.
  destruct (king_on_border pos); [reflexivity|].
  destruct (queen_contact_check pos move); [reflexivity|].
  apply existsb_weaken. intros sq. rewrite !Z.geb_le. lia.
Qed.

End ReadingFacts.

(** The fork of 796 reaches beta 1000 from the base 150 through the
    piece worth 900, hence also from the base 200 against beta 950. *)
Lemma check_is_dangerous_monotone_witness :
  check_is_dangerous fork_position 796 150 1000 = true
  /\ check_is_dangerous fork_position 796 200 950 = true.
Proof.
  split; [reflexivity|].
  exact (check_is_dangerous_monotone fork_position 796 150 200 1000 950
           ltac:(discriminate) ltac:(discriminate) eq_refl).
Defined.

(** ** Scores and root moves as the driver prints and lists them *)

Section PrintingFacts.
Context {T : Types}.

(** X5: a mate for the engine in [ply] plies is printed as a mate in
    [(ply + 1) / 2] moves, and being mated in [ply] plies as a mate in
    minus [ply / 2] moves, for every ply up to PLY_MAX. *)
Theorem value_to_uci_mate_distance (ply : Z) :
  0 <= ply <= PLY_MAX ->
  value_to_uci (value_mate_in ply)
  = ("mate " ++ string_of_Z (Z.quot (ply + 1) 2))%string
  /\ value_to_uci (value_mated_in ply)
     = ("mate " ++ string_of_Z (- Z.quot ply 2))%string.
Proof.
  intros Hply. pose proof ply_max_lt_mate as Hmate.
  unfold value_to_uci, value_mate_in, value_mated_in. split.
  - destruct (Z.ltb_spec (Z.abs (VALUE_MATE - ply)) (VALUE_MATE - PLY_MAX));
      [lia|].
    destruct (Z.gtb_spec (VALUE_MATE - ply) 0); [|lia].
    now replace (VALUE_MATE - (VALUE_MATE - ply) + 1) with (ply + 1) by lia.
  - destruct (Z.ltb_spec (Z.abs (- VALUE_MATE + ply))
                (VALUE_MATE - PLY_MAX)); [lia|].
    destruct (Z.gtb_spec (- VALUE_MATE + ply) 0); [lia|].
    replace (- VALUE_MATE - (- VALUE_MATE + ply)) with (- ply) by lia.
    now rewrite Z.quot_opp_l by lia.
Qed.

End PrintingFacts.

Lemma value_to_uci_mate_distance_witness :
  0 <= 3 <= @PLY_MAX Stockfish21
  /\ @value_to_uci Stockfish21 (@value_mate_in Stockfish21 3)
     = ("mate " ++ string_of_Z (Z.quot (3 + 1) 2))%string
  /\ @value_to_uci Stockfish21 (@value_mated_in Stockfish21 3)
     = ("mate " ++ string_of_Z (- Z.quot 3 2))%string.
Proof.
  assert (H : 0 <= 3 <= @PLY_MAX Stockfish21) by (split; discriminate).
  split; [exact H|].
  exact (@value_to_uci_mate_distance Stockfish21 3 H).
Defined.

Example value_to_uci_mate_in_3_plies :
  @value_to_uci Stockfish21 29997 = "mate 2"%string
  /\ @value_to_uci Stockfish21 (-29997) = "mate -1"%string
  /\ @value_to_uci Stockfish21 (-99) = "cp -50"%string.
Proof. vm_compute. repeat split. Qed.

(** ** The polling interval and the pruning tables *)

(** X7: [think] never sets the polling interval above 30000 nodes, and
    with a node limit never above the limit, so that the limit is
    looked at before it is passed; without one the interval is at
    least 1000 nodes. *)
Theorem nodes_between_polls_bounds (maxNodes time : Z) :
  nodes_between_polls maxNodes time <= 30000
  /\ (0 < maxNodes -> 0 < nodes_between_polls maxNodes time <= maxNodes)
  /\ (maxNodes = 0 -> 1000 <= nodes_between_polls maxNodes time).
Proof.
  unfold nodes_between_polls, truthy.
  destruct (Z.eqb_spec maxNodes 0); simpl.
  - split; [|split; [lia|intros _]];
      destruct (Z.eqb_spec time 0); simpl;
      destruct (Z.ltb_spec time 1000); simpl; try lia;
      destruct (Z.ltb_spec time 5000); simpl; lia.
  - split; [lia|]. split; [lia | contradiction].
Qed.

Lemma nodes_between_polls_bounds_witness :
  nodes_between_polls 500 0 <= 30000
  /\ 0 < nodes_between_polls 500 0 <= 500
  /\ 1000 <= nodes_between_polls 0 3000.
Proof.
  split; [exact (proj1 (nodes_between_polls_bounds 500 0))|].
  split.
  - exact (proj1 (proj2 (nodes_between_polls_bounds 500 0)) eq_refl).
  - exact (proj2 (proj2 (nodes_between_polls_bounds 0 3000)) eq_refl).
Defined.

Section TableFacts.
Context {T : Types}.

Variable MAX_MOVES : Z.

(** X8: with [ONE_PLY == 2], the unit the tables are sized for, the
    three lookups stay inside their arrays for every depth and move
    number that is not negative: the results do not depend on anything
    outside [FutilityMargins[1..13][0..63]], [FutilityMoveCounts[0..31]]
    and [Reductions[.][0..63][0..63]]. *)
Theorem table_reads_in_bounds (eng eng' : Engine)
    (FutilityMoveCounts FutilityMoveCounts' : Z -> Z)
    (Reductions Reductions' : NodeType -> Z -> Z -> Z)
    (PvNode : NodeType) (d : Depth) (mn : Z) :
  ONE_PLY = 2 ->
  0 <= mn ->
  (forall i j, 1 <= i <= 13 -> 0 <= j <= 63 ->
     FutilityMargins eng i j = FutilityMargins eng' i j) ->
  (forall i, 0 <= i <= 31 -> FutilityMoveCounts i = FutilityMoveCounts' i) ->
  (forall n i j, 0 <= i <= 63 -> 0 <= j <= 63 ->
     Reductions n i j = Reductions' n i j) ->
  futility_margin eng d mn = futility_margin eng' d mn
  /\ (0 <= d ->
      futility_move_count MAX_MOVES FutilityMoveCounts d
      = futility_move_count MAX_MOVES FutilityMoveCounts' d)
  /\ (0 <= d ->
      reduction Reductions PvNode d mn = reduction Reductions' PvNode d mn).
Proof.
  intros Hone Hmn Hfm Hfc Hred.
  unfold futility_margin, futility_move_count, reduction. rewrite Hone.
  split; [|split].
  - destruct (Z.ltb_spec d (7 * 2)); [|reflexivity]. apply Hfm; lia.
  - intros Hd. destruct (Z.ltb_spec d (16 * 2)); [|reflexivity].
    apply Hfc. lia.
  - intros Hd. apply Hred; [|lia].
    pose proof (Z.quot_pos d 2 Hd ltac:(lia)). lia.
Qed.

End TableFacts.

Lemma table_reads_in_bounds_witness :
  futility_margin (T := Stockfish21) (engine_with None) 5 3
  = futility_margin (T := Stockfish21) engine_padded 5 3
  /\ (0 <= 5 ->
      futility_move_count (T := Stockfish21) 256 (fun d => 3 + d * d / 4) 5
      = futility_move_count (T := Stockfish21) 256 (fun d => 3 + d * d / 4) 5)
  /\ (0 <= 5 ->
      reduction (fun _ i j => i * j / 8) NonPV 5 3
      = reduction (fun _ i j => i * j / 8) NonPV 5 3).
Proof.
  apply (@table_reads_in_bounds Stockfish21 256 (engine_with None)
           engine_padded (fun d => 3 + d * d / 4) (fun d => 3 + d * d / 4)
           (fun _ i j => i * j / 8) (fun _ i j => i * j / 8) NonPV 5 3).
  - reflexivity.
  - discriminate.
  - intros i j Hi Hj. simpl.
    destruct (Z.leb_spec 1 i); [|lia]. destruct (Z.leb_spec i 13); [|lia].
    destruct (Z.leb_spec 0 j); [|lia]. destruct (Z.leb_spec j 63); [|lia].
    reflexivity.
  - reflexivity.
  - reflexivity.
Defined.

(** ** Writing the PV back to the table *)

Section InsertPvFacts.
Context {T : Types}.

Lemma vt_eqb_UPPER (t : ValueType) :
  vt_eqb t VALUE_TYPE_UPPER = true -> t = VALUE_TYPE_UPPER.
Proof. destruct t; vm_compute; congruence. Qed.

Lemma insert_pv_step_kept (d : Depth) (p : PvPly) :
  pv_ply_kept p (snd (insert_pv_step d p)).
Proof.
  unfold insert_pv_step, pv_ply_kept. simpl.
  destruct (pp_tte p) as [e|]; [|repeat split].
  destruct (Z.eqb_spec (TTEntry.move e) (pp_move p)) as [E|E]; simpl;
    [exact E|].
  destruct (TTEntry.depth e >=? _); simpl.
  - destruct (vt_eqb (TTEntry.type e) VALUE_TYPE_UPPER) eqn:Ht; simpl.
    + apply vt_eqb_UPPER in Ht. repeat split; auto.
    + repeat split; auto.
  - repeat split; auto.
Qed.

(** X9: at each ply of the PV [insert_pv_in_tt] writes nothing when
    the probed entry already holds the PV move, and writes one entry
    otherwise.  The entry written has the key and the PV move of the
    ply.  On a miss it has no score, no bound kind and no static
    evaluation (VALUE_NONE, VALUE_TYPE_NONE).  In place of an entry
    with another move it keeps the static value and margin of that
    entry, and either keeps its score, kind and depth, which happens
    only to an upper bound, or has no score and no bound kind. *)
Theorem insert_pv_in_tt_keeps (pv : list PvPly) :
  Forall2 pv_ply_kept pv (insert_pv_in_tt pv).
Proof.
  unfold insert_pv_in_tt. generalize DEPTH_NONE.
  induction pv as [|p rest IH]; intros d; cbn [insert_pv_from];
    [constructor|].
  pose proof (insert_pv_step_kept d p) as Hp.
  destruct (insert_pv_step d p) as [d' w]. constructor; [exact Hp|apply IH].
Qed.

End InsertPvFacts.

Example insert_pv_sample :
  map (option_map (fun w => (st_move w, st_value w, st_depth w)))
      (@insert_pv_in_tt Stockfish21 sample_pv)
  = [ Some (796, 30002, -256); None; Some (1330, 25, 6) ].
Proof. vm_compute. reflexivity. Qed.

(** ** Polling *)

(** X10: [poll] only ever raises the two requests and only ever ends
    pondering; and as long as a quit request comes with a stop
    request before the call, it does so after it. *)
Theorem poll_requests_monotone (i : PollInput) (f : Flags.t) :
  (Flags.StopRequest f = true -> Flags.StopRequest (poll i f) = true)
  /\ (Flags.QuitRequest f = true -> Flags.QuitRequest (poll i f) = true)
  /\ (Flags.Limits_ponder f = false ->
      Flags.Limits_ponder (poll i f) = false)
  /\ ((Flags.QuitRequest f = true -> Flags.StopRequest f = true) ->
      Flags.QuitRequest (poll i f) = true ->
      Flags.StopRequest (poll i f) = true).
Proof.
  unfold poll, poll_input, poll_info, poll_stop.
  destruct f as [ponder quit stop send last]. simpl.
  destruct (input_available i); [destruct (command i) as [c|]|];
    simpl;
    repeat match goal with
           | |- context [if ?b then _ else _] => destruct b; simpl
           end;
    repeat split; intros; subst; auto; try discriminate.
Qed.

Lemma poll_requests_monotone_witness :
  (Flags.StopRequest pondering = true ->
   Flags.StopRequest (poll (late_poll (Some "quit"%string)) pondering)
   = true)
  /\ Flags.QuitRequest (poll (late_poll (Some "quit"%string)) pondering)
     = true
  /\ Flags.StopRequest (poll (late_poll (Some "quit"%string)) pondering)
     = true.
Proof.
  pose proof (poll_requests_monotone (late_poll (Some "quit"%string))
                pondering) as [Hs [_ [_ Hq]]].
  split; [exact Hs|]. split; [reflexivity|].
  apply Hq; [discriminate | reflexivity].
Defined.

(** X11: while the engine ponders, a poll that reads no command (no
    input waiting, or a line that is none of "quit", "stop" and
    "ponderhit") leaves the requests as they are, however much time
    or how many nodes have been spent. *)
Theorem poll_while_pondering (i : PollInput) (f : Flags.t) :
  Flags.Limits_ponder f = true ->
  input_available i = false
  \/ (exists c, command i = Some c
                /\ c <> "quit"%string /\ c <> "stop"%string
                /\ c <> "ponderhit"%string) ->
  Flags.StopRequest (poll i f) = Flags.StopRequest f
  /\ Flags.QuitRequest (poll i f) = Flags.QuitRequest f
  /\ Flags.Limits_ponder (poll i f) = true.
Proof.
  intros Hponder Hquiet.
  assert (Hin : poll_input i f = (f, false)).
  { unfold poll_input. destruct Hquiet as [H|[c [Hc [Hq [Hs Hp]]]]].
    - now rewrite H.
    - rewrite Hc. apply String.eqb_neq in Hq, Hs, Hp.
      rewrite Hq, Hs, Hp. now destruct (input_available i). }
  unfold poll. rewrite Hin.
  assert (Hinfo : forall t,
             Flags.Limits_ponder (poll_info t f) = true
             /\ Flags.StopRequest (poll_info t f) = Flags.StopRequest f
             /\ Flags.QuitRequest (poll_info t f) = Flags.QuitRequest f).
  { intros t. unfold poll_info.
    repeat match goal with
           | |- context [if ?b then _ else _] => destruct b
           end; simpl; auto. }
  destruct (Hinfo (poll_time i)) as [Hp [Hs Hq]].
  unfold poll_stop. rewrite Hp. auto.
Qed.

Lemma poll_while_pondering_witness :
  Flags.StopRequest (poll (late_poll None) pondering)
    = Flags.StopRequest pondering
  /\ Flags.QuitRequest (poll (late_poll None) pondering)
     = Flags.QuitRequest pondering
  /\ Flags.Limits_ponder (poll (late_poll None) pondering) = true.
Proof.
  exact (poll_while_pondering (late_poll None) pondering eq_refl
           (or_introl eq_refl)).
Defined.

(** X12: a "stop" line ends pondering and raises the stop request
    without asking to quit; "quit", like a closed input, raises both;
    "ponderhit" ends pondering and hands the decision to the latch
    [StopOnPonderhit] and to the clock. *)
Theorem poll_commands (i : PollInput) (f : Flags.t) :
  input_available i = true ->
  (command i = Some "stop"%string ->
   Flags.StopRequest (poll i f) = true
   /\ Flags.Limits_ponder (poll i f) = false
   /\ Flags.QuitRequest (poll i f) = Flags.QuitRequest f)
  /\ (command i = Some "quit"%string \/ command i = None ->
      Flags.StopRequest (poll i f) = true
      /\ Flags.QuitRequest (poll i f) = true
      /\ Flags.Limits_ponder (poll i f) = false)
  /\ (command i = Some "ponderhit"%string ->
      Flags.Limits_ponder (poll i f) = false
      /\ (poll_StopOnPonderhit i = true ->
          Flags.StopRequest (poll i f) = true)).
Proof.
  intros Hin. unfold poll, poll_input. rewrite Hin.
  split; [|split].
  - intros Hc. rewrite Hc. simpl.
    unfold poll_info, poll_stop. simpl.
    repeat match goal with
           | |- context [if ?b then _ else _] => destruct b; simpl
           end; auto.
  - intros [Hc|Hc]; rewrite Hc; simpl; auto.
  - intros Hc. rewrite Hc. simpl.
    unfold poll_info, poll_stop. simpl.
    repeat match goal with
           | |- context [if ?b then _ else _] => destruct b; simpl
           end; auto; split; auto; discriminate.
Qed.

Lemma poll_commands_witness :
  Flags.StopRequest (poll (late_poll (Some "stop"%string)) pondering) = true
  /\ Flags.Limits_ponder (poll (late_poll (Some "stop"%string)) pondering)
     = false
  /\ Flags.QuitRequest (poll (late_poll (Some "stop"%string)) pondering)
     = Flags.QuitRequest pondering.
Proof.
  exact (proj1 (poll_commands (late_poll (Some "stop"%string)) pondering
                  eq_refl) eq_refl).
Defined.

(** ** Waiting for the end of pondering *)

(** A line that is none of the three commands. *)
Lemma not_a_command_skipped (c : string) (rest : list string) :
  c <> "ponderhit"%string -> c <> "stop"%string -> c <> "quit"%string ->
  wait_for_stop_or_ponderhit (c :: rest) = wait_for_stop_or_ponderhit rest.
Proof.
  intros Hp Hs Hq. apply String.eqb_neq in Hp, Hs, Hq. simpl.
  now rewrite Hp, Hs, Hq.
Qed.

(** X13: [wait_for_stop_or_ponderhit] discards the lines before the
    first "ponderhit", "stop" or "quit", consumes that line and
    nothing after it, and asks to quit exactly when that line is
    "quit" or the input ends before any of the three. *)
Theorem wait_for_stop_or_ponderhit_spec (pre rest : list string) :
  Forall (fun c => c <> "ponderhit"%string /\ c <> "stop"%string
                   /\ c <> "quit"%string) pre ->
  wait_for_stop_or_ponderhit (pre ++ "ponderhit"%string :: rest)
    = (false, rest)
  /\ wait_for_stop_or_ponderhit (pre ++ "stop"%string :: rest)
     = (false, rest)
  /\ wait_for_stop_or_ponderhit (pre ++ "quit"%string :: rest)
     = (true, rest)
  /\ wait_for_stop_or_ponderhit pre = (true, []).
Proof.
  induction 1 as [|c pre [Hp [Hs Hq]] _ IH]; [repeat split|].
  cbn [app]. rewrite !not_a_command_skipped by assumption. exact IH.
Qed.

Lemma wait_for_stop_or_ponderhit_spec_witness :
  wait_for_stop_or_ponderhit
    ["isready"; "debug on"; "stop"; "quit"]%string
  = (false, ["quit"%string]).
Proof.
  refine (proj1 (proj2 (wait_for_stop_or_ponderhit_spec
                          ["isready"; "debug on"]%string ["quit"%string]
                          _))).
  repeat constructor; discriminate.
Defined.

(** ** Perft *)

Section PerftFacts.
Context {T : Types}.
Variable Pos : Type.
Variable legal_moves : Pos -> list Move.
Variable do_move : Pos -> Move -> Pos.

Lemma sum_Z_lengths {A B : Type} (f : A -> list B) (l : list A) :
  sum_Z (map (fun a => Z.of_nat (List.length (f a))) l)
  = Z.of_nat (List.length (flat_map f l)).
Proof.
  induction l as [|a l IH]; [reflexivity|].
  cbn [map flat_map sum_Z fold_right].
  rewrite length_app, Nat2Z.inj_add. unfold sum_Z in IH. now rewrite IH.
Qed.

Lemma lines_one (pos : Pos) :
  List.length (lines Pos legal_moves do_move 1 pos)
  = List.length (legal_moves pos).
Proof.
  cbn [lines]. induction (legal_moves pos) as [|m l IH];
    [reflexivity|]. cbn [flat_map map app List.length] in *.
  now rewrite IH.
Qed.

(** With a bound of at least [n] calls, a depth in the [n+1]-th ply
    counts the lines of [n+1] moves. *)
Lemma perft_calls_lines (Hply : 0 < ONE_PLY) (n : nat) :
  forall (fuel : nat) (pos : Pos) (depth : Depth),
    (n <= fuel)%nat ->
    depth <= Z.of_nat (S n) * ONE_PLY ->
    (n = O \/ Z.of_nat n * ONE_PLY < depth) ->
    perft_calls Pos legal_moves do_move fuel pos depth
    = Z.of_nat (List.length (lines Pos legal_moves do_move (S n) pos)).
Proof.
  induction n as [|n IH]; intros fuel pos depth Hfuel Hhi Hlo.
  - rewrite lines_one.
    assert (Hleaf : (depth <=? ONE_PLY) = true) by (apply Z.leb_le; lia).
    destruct fuel; cbn [perft_calls]; now rewrite Hleaf.
  - destruct Hlo as [Hlo|Hlo]; [discriminate|].
    assert (Hinner : (depth <=? ONE_PLY) = false)
      by (apply Z.leb_gt; nia).
    destruct fuel as [|fuel]; [lia|].
    cbn [perft_calls]. rewrite Hinner.
    rewrite (map_ext _
               (fun m => Z.of_nat
                           (List.length
                              (map (cons m)
                                 (lines Pos legal_moves do_move (S n)
                                    (do_move pos m)))))).
    + rewrite sum_Z_lengths. reflexivity.
    + intros m. rewrite length_map. apply IH; [lia|lia|].
      destruct n; [now left|right; lia].
Qed.

End PerftFacts.

(** X14: for a positive ONE_PLY, [perft] at a depth within the
    [n+1]-th ply (and, for [n = 0], at any smaller depth, zero and
    negative ones included) returns the number of lines of [n+1] legal
    moves from the position; its recursion ends within the bound taken
    from the depth.  The sum is taken in unbounded integers. *)
Theorem perft_counts_lines {T : Types} (Pos : Type)
    (legal_moves : Pos -> list Move) (do_move : Pos -> Move -> Pos)
    (n : nat) (pos : Pos) (depth : Depth) :
  0 < ONE_PLY ->
  depth <= Z.of_nat (S n) * ONE_PLY ->
  (n = O \/ Z.of_nat n * ONE_PLY < depth) ->
  perft Pos legal_moves do_move pos depth
  = Z.of_nat (List.length (lines Pos legal_moves do_move (S n) pos)).
Proof.
  intros Hply Hhi Hlo. unfold perft.
  apply perft_calls_lines; try assumption.
  destruct Hlo as [->|Hlo]; [lia|]. nia.
Qed.

Lemma perft_counts_lines_witness :
  @perft Stockfish21 Z countdown_moves countdown_do_move 5 5 = 10
  /\ List.length (lines Z countdown_moves countdown_do_move 3 5) = 10%nat.
Proof.
  split; [|reflexivity].
  exact (@perft_counts_lines Stockfish21 Z countdown_moves
           countdown_do_move 2 5 5 eq_refl
           (fun H => ltac:(discriminate H)) (or_intror eq_refl)).
Defined.

(** ** The driver under the promise of [search] *)

Section RunFacts.
Context {T : Types}.

Variable MultiPV : Z.

Lemma infinite_pos : 0 < VALUE_INFINITE.
Proof.
  pose proof ply_max_nonneg. pose proof ply_max_lt_mate.
  pose proof mate_lt_infinite. lia.
Qed.

Lemma id_run_reach (st : Id.t) : id_run MultiPV st -> id_reach MultiPV st.
Proof.
  induction 1 as [bv vd lv | st st' a _ IH _ Hpass
                  | st st' a value sop _ IH _ Hpass Hdepth].
  - apply reach_first.
  - exact (reach_research MultiPV st st' a IH Hpass).
  - exact (reach_next MultiPV st st' a value sop IH Hpass Hdepth).
Qed.

(** The score a pass goes on with is proper. *)
Lemma settled_value_proper (st : Id.t) (a : RootAnswer) :
  window_inv MultiPV st ->
  proper_answer a ->
  - VALUE_INFINITE < settled_value st (ans_value a) < VALUE_INFINITE.
Proof.
  intros [_ Hlast] Ha. unfold settled_value.
  pose proof mate_lt_infinite. pose proof known_win_le_mate.
  destruct (Z.eqb_spec (Id.LastValue st) VALUE_NONE) as [|HL];
    [exact Ha|].
  cbn [negb andb].
  destruct (Z.abs (ans_value a - Id.bestValues st (Id.depth st - 1)) =? 1);
    [|exact Ha].
  destruct (Hlast HL) as [Hk _]. lia.
Qed.

Lemma delta_grows (d : Z) :
  0 <= d -> d <= d + Z.quot d 2.
Proof.
  intros Hd. rewrite Z.quot_div_nonneg by lia.
  pose proof (Z.div_pos d 2 Hd ltac:(lia)). lia.
Qed.

(** A pass on proper answers keeps [run_inv], ends with a proper
    score, keeps depth and scores, and a re-search strictly narrows
    the gap to the full window. *)
Lemma run_inv_pass (st : Id.t) (a : RootAnswer) :
  window_inv MultiPV st ->
  run_inv st ->
  proper_answer a ->
  match aspiration_pass st a with
  | Research st' =>
      run_inv st' /\ 0 <= window_gap st' < window_gap st
  | Accept st' value =>
      run_inv st' /\ - VALUE_INFINITE < value < VALUE_INFINITE
  end.
Proof.
  intros Hw [[Ha [Hab Hb]] [Hd [Hfull Hbv]]] Hans.
  pose proof (settled_value_proper st a Hw Hans) as Hval.
  pose proof (delta_grows _ Hd) as Hgrow.
  pose proof infinite_pos as Hinf.
  unfold aspiration_pass.
  destruct (ans_StopRequest a).
  { split; [|exact Hans]. unfold run_inv; cbn. auto 10. }
  set (value := settled_value st (ans_value a)) in *.
  destruct (Z.geb_spec value (Id.beta st)) as [Hhigh|Hhigh].
  - assert (Hopen : 16 <= Id.aspirationDelta st)
      by (destruct Hfull as [[_ E]|H16]; [lia | exact H16]).
    destruct (Z.abs value <? VALUE_KNOWN_WIN);
      unfold run_inv, window_gap; cbn; repeat split; auto; try lia;
        apply Hbv; assumption.
  - destruct (Z.leb_spec value (Id.alpha st)) as [Hlow|Hlow].
    + assert (Hopen : 16 <= Id.aspirationDelta st)
        by (destruct Hfull as [[E _]|H16]; [lia | exact H16]).
      destruct (Z.abs value <? VALUE_KNOWN_WIN);
        unfold run_inv, window_gap; cbn; repeat split; auto; try lia;
        apply Hbv; assumption.
    + unfold run_inv; cbn. repeat split; auto; try lia;
        apply Hbv; assumption.
Qed.

(** The head of an iteration establishes [run_inv] when the score of
    the iteration before is there. *)
Lemma run_inv_begin_iteration (st : Id.t) :
  (- VALUE_INFINITE <= Id.alpha st
   /\ Id.alpha st < Id.beta st
   /\ Id.beta st <= VALUE_INFINITE) ->
  0 <= Id.aspirationDelta st ->
  ((Id.alpha st = - VALUE_INFINITE /\ Id.beta st = VALUE_INFINITE)
   \/ 16 <= Id.aspirationDelta st) ->
  (forall i, 1 <= i < Id.depth st + 1 ->
             - VALUE_INFINITE < Id.bestValues st i < VALUE_INFINITE) ->
  run_inv (begin_iteration MultiPV st).
Proof.
  intros [Ha [Hab Hb]] Hd Hfull Hbv.
  pose proof infinite_pos as Hinf.
  unfold begin_iteration, aspiration_window.
  set (bv := Id.bestValues st) in *. clearbody bv.
  destruct ((MultiPV =? 1) && (Id.depth st + 1 >=? 5)) eqn:Hasp.
  - apply andb_prop in Hasp as [_ Hdepth].
    destruct (Z.geb_spec (Id.depth st + 1) 5) as [H5|]; [|discriminate].
    pose proof (Hbv (Id.depth st + 1 - 1) ltac:(lia)) as Hlast.
    set (x := Z.abs (bv (Id.depth st + 1 - 1) - bv (Id.depth st + 1 - 2))
              + Z.quot (Z.abs (bv (Id.depth st + 1 - 2)
                               - bv (Id.depth st + 1 - 3))) 2).
    assert (Hdelta : Z.quot (Z.min (Z.max x 16) 24 + 7) 8 * 8 = 16
                     \/ Z.quot (Z.min (Z.max x 16) 24 + 7) 8 * 8 = 24).
    { rewrite Z.quot_div_nonneg by lia.
      pose proof (aspiration_delta_values x) as H.
      unfold round_up_to_8, clamp in H.
      replace (Z.min (Z.max x 16) 24) with (Z.max 16 (Z.min x 24)) by lia.
      lia. }
    set (delta := Z.quot (Z.min (Z.max x 16) 24 + 7) 8 * 8) in *.
    clearbody delta.
    destruct (Z.abs (bv (Id.depth st + 1 - 1)) >=? VALUE_KNOWN_WIN);
      unfold run_inv; cbn [Id.depth Id.bestValues Id.aspirationDelta
                           Id.alpha Id.beta];
      (split; [lia|]); (split; [lia|]); (split; [right; lia|]);
      exact Hbv.
  - unfold run_inv; cbn [Id.depth Id.bestValues Id.aspirationDelta
                         Id.alpha Id.beta].
    (split; [lia|]); (split; [lia|]); (split; [exact Hfull|]);
      exact Hbv.
Qed.

(** The head of the next iteration re-establishes [run_inv]. *)
Lemma run_inv_begin (st : Id.t) (value : Value) (sop : bool) :
  run_inv st ->
  - VALUE_INFINITE < value < VALUE_INFINITE ->
  run_inv (begin_iteration MultiPV (end_iteration st value sop)).
Proof.
  intros [Hwin [Hd [Hfull Hbv]]] Hval.
  apply run_inv_begin_iteration; try assumption.
  intros i Hi. cbn [end_iteration Id.bestValues Id.depth] in *.
  destruct (Z.eqb_spec i (Id.depth st)); [exact Hval | apply Hbv; lia].
Qed.

Lemma run_inv_init (bestValues : Z -> Value) (ValueDraw LastValue : Value) :
  run_inv (begin_iteration MultiPV
             (id_loop_init bestValues ValueDraw LastValue)).
Proof.
  pose proof infinite_pos as Hinf.
  apply run_inv_begin_iteration; cbn [id_loop_init Id.depth Id.bestValues
    Id.aspirationDelta Id.alpha Id.beta]; lia.
Qed.

Lemma id_run_inv (st : Id.t) : id_run MultiPV st -> run_inv st.
Proof.
  induction 1 as [bv vd lv | st st' a Hrun IH Ha Hpass
                  | st st' a value sop Hrun IH Ha Hpass Hdepth].
  - apply run_inv_init.
  - pose proof (run_inv_pass st a
                  (id_reach_inv MultiPV st (id_run_reach st Hrun)) IH Ha)
      as H.
    rewrite Hpass in H. exact (proj1 H).
  - pose proof (run_inv_pass st a
                  (id_reach_inv MultiPV st (id_run_reach st Hrun)) IH Ha)
      as H.
    rewrite Hpass in H. destruct H as [Hinv Hval].
    now apply run_inv_begin.
Qed.

(** The loop ends within as many passes as the window is points away
    from the full one, plus one. *)
Lemma aspiration_loop_ends (n : nat) :
  forall (st : Id.t) (answers : list RootAnswer),
    window_inv MultiPV st ->
    run_inv st ->
    Forall proper_answer answers ->
    window_gap st < Z.of_nat n ->
    (n <= List.length answers)%nat ->
    exists st' value rest,
      aspiration_loop answers st = Some (st', value, rest)
      /\ run_inv st'
      /\ - VALUE_INFINITE < value < VALUE_INFINITE.
Proof.
  induction n as [|n IH]; intros st answers Hw Hinv Hall Hgap Hlen.
  - exfalso. destruct Hinv as [[Ha [Hab Hb]] _]. unfold window_gap in Hgap.
    lia.
  - destruct answers as [|a rest]; [cbn in Hlen; lia|].
    inversion Hall as [|? ? Ha Hrest]; subst.
    pose proof (run_inv_pass st a Hw Hinv Ha) as Hpass.
    pose proof (window_inv_pass MultiPV st a Hw) as Hwpass.
    cbn [aspiration_loop].
    destruct (aspiration_pass st a) as [st'|st' value].
    + destruct Hpass as [Hinv' Hless].
      apply IH; auto; [lia | cbn in Hlen; lia].
    + exists st', value, rest. destruct Hpass. auto.
Qed.

End RunFacts.

(** X15: as long as the root search keeps its promise of a score
    strictly between the two infinities, every window with which
    [id_loop] calls it meets the entry assertions of [search]:
    [-VALUE_INFINITE <= alpha < beta <= VALUE_INFINITE]. *)
Theorem id_run_window {T : Types} (MultiPV : Z) (st : Id.t) :
  id_run MultiPV st ->
  - VALUE_INFINITE <= Id.alpha st
  /\ Id.alpha st < Id.beta st
  /\ Id.beta st <= VALUE_INFINITE.
Proof. intros Hrun. exact (proj1 (id_run_inv MultiPV st Hrun)). Qed.

(** X16: from every such state the aspiration loop ends, with a
    proper score, within one pass more than the window is points away
    from the full window, provided that many proper answers are
    there. *)
Theorem aspiration_loop_terminates {T : Types} (MultiPV : Z) (st : Id.t)
    (answers : list RootAnswer) :
  id_run MultiPV st ->
  Forall proper_answer answers ->
  (Z.to_nat (window_gap st) < List.length answers)%nat ->
  exists st' value rest,
    aspiration_loop answers st = Some (st', value, rest)
    /\ - VALUE_INFINITE < value < VALUE_INFINITE.
Proof.
  intros Hrun Hall Hlen.
  pose proof (id_run_inv MultiPV st Hrun) as Hinv.
  assert (Hgap : 0 <= window_gap st).
  { destruct Hinv as [[Ha [Hab Hb]] _]. unfold window_gap. lia. }
  destruct (aspiration_loop_ends MultiPV (S (Z.to_nat (window_gap st)))
              st answers
              (id_reach_inv MultiPV st (id_run_reach MultiPV st Hrun))
              Hinv Hall ltac:(lia) ltac:(lia))
    as [st' [value [rest [Hloop [_ Hval]]]]].
  now exists st', value, rest.
Qed.

Lemma run_next_iteration {T : Types} (st st' : Id.t) (v value : Value) :
  id_run 1 st ->
  - VALUE_INFINITE < v < VALUE_INFINITE ->
  aspiration_pass st (answer v) = Accept st' value ->
  Id.depth st' < PLY_MAX ->
  id_run 1 (next_iteration st v).
Proof.
  intros Hrun Hv Hpass Hdepth. unfold next_iteration. rewrite Hpass.
  now apply (run_next 1 st st' (answer v) value false).
Qed.

Lemma fifth_iteration_run : @id_run Stockfish21 1 fifth_iteration.
Proof.
  unfold fifth_iteration.
  do 4 (eapply run_next_iteration;
        [| split; reflexivity | vm_compute; reflexivity
         | vm_compute; reflexivity]).
  apply run_first.
Qed.

Lemma id_run_window_witness :
  - @VALUE_INFINITE Stockfish21 <= Id.alpha fifth_iteration
  /\ Id.alpha fifth_iteration < Id.beta fifth_iteration
  /\ Id.beta fifth_iteration <= @VALUE_INFINITE Stockfish21.
Proof.
  exact (@id_run_window Stockfish21 1 fifth_iteration fifth_iteration_run).
Defined.

(** From the window (16, 64) of the fifth iteration, 59954 points
    away from the full one, a search that keeps answering 90 fails
    high against 64 and is searched again. *)
Lemma aspiration_loop_terminates_witness :
  (exists st',
     @aspiration_pass Stockfish21 fifth_iteration (answer 90)
     = Research st')
  /\ exists st' value rest,
       @aspiration_loop Stockfish21
         (repeat (answer 90) (Z.to_nat 59955)) fifth_iteration
       = Some (st', value, rest)
       /\ - @VALUE_INFINITE Stockfish21 < value
            < @VALUE_INFINITE Stockfish21.
Proof.
  split; [eexists; vm_compute; reflexivity|].
  refine (@aspiration_loop_terminates Stockfish21 1 fifth_iteration
            (repeat (answer 90) (Z.to_nat 59955)) fifth_iteration_run
            _ _).
  - apply Forall_forall. intros a Ha. apply repeat_spec in Ha.
    rewrite Ha. split; reflexivity.
  - rewrite repeat_length. apply Z2Nat.inj_lt.
    + vm_compute. discriminate.
    + discriminate.
    + vm_compute. reflexivity.
Defined.

(** From the window (16, 64) of the fifth iteration, the answers 100,
    120 and 90 fail high twice and then fit: the loop ends with 90 in
    the window (16, 124) and leaves the fourth answer unread. *)
Example aspiration_loop_fail_high_twice :
  match @aspiration_loop Stockfish21
          [answer 100; answer 120; answer 90; answer 0] fifth_iteration with
  | Some (st', value, rest) =>
      (Id.alpha st', Id.beta st', Id.aspirationDelta st', value, rest)
      = (16, 124, 54, 90, [answer 0])
  | None => False
  end.
Proof. vm_compute. reflexivity. Qed.

(** ** What a node stores, a later visit can use *)

Section StoredBounds.
Context {T : Types}.

(** A score stored with the bound kind the two searches give it, read
    back at the same ply against the same beta and at a depth the
    entry covers, passes [ok_to_use_TT] and is the score again. *)
Lemma stored_bound_usable (bestValue oldAlpha beta : Value) (ply : Z)
    (d : Depth) (e : TTEntry.t) :
  0 <= ply ->
  value_to_tt bestValue ply <> VALUE_NONE ->
  oldAlpha < beta ->
  d <= TTEntry.depth e ->
  TTEntry.value e = value_to_tt bestValue ply ->
  TTEntry.type e = bound_type bestValue oldAlpha beta ->
  ok_to_use_TT e d beta ply = true
  /\ value_from_tt (TTEntry.value e) ply = bestValue.
Proof.
  intros Hply Hnone Hwin Hd Hv Ht. pose proof mate_band as Hband.
  assert (Hback : value_from_tt (TTEntry.value e) ply = bestValue).
  { rewrite Hv. unfold value_from_tt.
    destruct (Z.eqb_spec (value_to_tt bestValue ply) VALUE_NONE);
      [contradiction|].
    unfold value_to_tt. split_cmp; lia. }
  split; [|exact Hback].
  unfold ok_to_use_TT. cbv zeta. rewrite Hback, Ht.
  destruct (Z.geb_spec (TTEntry.depth e) d); [|lia]. cbn [orb andb].
  unfold bound_type.
  destruct (Z.leb_spec bestValue oldAlpha).
  - destruct (Z.ltb_spec bestValue beta); [|lia].
    destruct (bestValue >=? beta); reflexivity.
  - destruct (Z.geb_spec bestValue beta); [reflexivity|].
    destruct (Z.ltb_spec bestValue beta); [reflexivity|lia].
Qed.

End StoredBounds.

(** X17: the entry a node of [search] stores at Step 20 (a node with
    a counted move, not aborted, without broken threat) makes a later
    non-PV visit at the same ply, against the same beta and at no
    greater depth, return at Step 4 with the score the first visit
    returned, provided the stored number is not the sentinel
    VALUE_NONE. *)
Theorem stored_score_cuts_again {T : Types} (pos : Position)
    (depth : Depth) (l : Locals.t) (moveCount : Z) (sc : Scores.t) :
  moveCount <> 0 ->
  SearchStack.brokenThreat (Scores.ss sc) = false ->
  0 <= SearchStack.ply (Scores.ss sc) ->
  value_to_tt (Scores.bestValue sc) (SearchStack.ply (Scores.ss sc))
    <> VALUE_NONE ->
  Locals.oldAlpha l < Locals.beta l ->
  exists s w,
    search_finish pos depth false false l moveCount sc
    = (Scores.bestValue sc, s, w :: Locals.tt_stores l)
    /\ forall (pos' : Position) (depth' : Depth) (l' : Locals.t),
         depth' <= depth ->
         Locals.tte l' = Some (entry_of_store w) ->
         Locals.beta l' = Locals.beta l ->
         SearchStack.ply (Locals.ss l')
           = SearchStack.ply (Scores.ss sc) ->
         exists s' w',
           tt_cutoff NonPV false pos' depth' l'
           = Return (Scores.bestValue sc) s' w'.
Proof.
  intros Hcount Hthreat Hply Hnone Hwin.
  unfold search_finish. cbv zeta.
  destruct (Z.eqb_spec moveCount 0) as [|_]; [contradiction|].
  cbn [negb andb].
  replace (SearchStack.brokenThreat
             (SearchStack.set_currentMove (Scores.bestMove sc)
                (Scores.ss sc)))
    with false by (symmetry; exact Hthreat).
  eexists. eexists. split; [reflexivity|].
  intros pos' depth' l' Hdepth Htte Hbeta Hply'.
  set (w := {| st_key := Locals.posKey l;
               st_value := _; st_type := _; st_depth := depth;
               st_move := _; st_static_value := _;
               st_static_value_margin := _ |}) in *.
  destruct (stored_bound_usable (Scores.bestValue sc) (Locals.oldAlpha l)
              (Locals.beta l) (SearchStack.ply (Scores.ss sc)) depth'
              (entry_of_store w) Hply Hnone Hwin Hdepth eq_refl eq_refl)
    as [Hok Hback].
  unfold tt_cutoff. rewrite Htte.
  assert (Hcut : tt_cutoff_ok NonPV false depth' l' (entry_of_store w)
                 = true).
  { unfold tt_cutoff_ok. cbn [negb andb is_pv].
    rewrite Hbeta, Hply', Hok.
    destruct (Z.eqb_spec (TTEntry.value (entry_of_store w)) VALUE_NONE)
      as [E|]; [|reflexivity].
    exfalso. apply Hnone. exact E. }
  rewrite Hcut. cbv zeta. eexists. eexists. f_equal.
  rewrite <- Hback at 1. f_equal. rewrite <- Hply'.
  repeat match goal with
         | |- context [if ?b then _ else _] => destruct b
         end; reflexivity.
Qed.

(** X18: the entry the quiescence search stores at its end makes a
    later non-PV visit at the same ply, against the same beta and with
    a table depth no greater, return the same score from the table,
    provided the stored number is not the sentinel VALUE_NONE. *)
Theorem qsearch_stored_score_cuts_again {T : Types} (pos : Position)
    (inCheck : bool) (oldAlpha beta : Value) (ttDepth : Depth)
    (w0 : list TTStore) (q : QState.t) :
  inCheck && (QState.bestValue q =? - VALUE_INFINITE) = false ->
  0 <= SearchStack.ply (QState.ss q) ->
  value_to_tt (QState.bestValue q) (SearchStack.ply (QState.ss q))
    <> VALUE_NONE ->
  oldAlpha < beta ->
  exists s w,
    qsearch_finish pos inCheck oldAlpha beta ttDepth w0 q
    = (QState.bestValue q, s, w :: w0)
    /\ forall (ttDepth' : Depth) (ss' : SearchStack.t) (ttMove : Move),
         ttDepth' <= ttDepth ->
         SearchStack.ply ss' = SearchStack.ply (QState.ss q) ->
         exists s',
           qsearch_tt_cutoff NonPV beta ttDepth' ss' ttMove
             (Some (entry_of_store w))
           = Some (QState.bestValue q, s').
Proof.
  intros Hmate Hply Hnone Hwin.
  unfold qsearch_finish. cbv zeta. rewrite Hmate.
  eexists. eexists. split; [reflexivity|].
  intros ttDepth' ss' ttMove Hdepth Hply'.
  set (w := {| st_key := get_key pos;
               st_value := _; st_type := _; st_depth := ttDepth;
               st_move := _; st_static_value := _;
               st_static_value_margin := _ |}) in *.
  destruct (stored_bound_usable (QState.bestValue q) oldAlpha beta
              (SearchStack.ply (QState.ss q)) ttDepth'
              (entry_of_store w) Hply Hnone Hwin Hdepth eq_refl eq_refl)
    as [Hok Hback].
  unfold qsearch_tt_cutoff. cbn [negb andb is_pv].
  rewrite Hply', Hok.
  destruct (Z.eqb_spec (TTEntry.value (entry_of_store w)) VALUE_NONE)
    as [E|_]; [exfalso; apply Hnone; exact E|].
  cbn [negb andb]. cbv zeta. eexists. f_equal. f_equal.
  rewrite <- Hback at 1. f_equal. rewrite <- Hply'.
  destruct (TTEntry.value (entry_of_store w) >=? VALUE_MATE_IN_PLY_MAX);
    reflexivity.
Qed.

Lemma stored_score_cuts_again_witness :
  exists s w,
    @search_finish Stockfish21 quiet_position 8 false false
      (locals_at 49 50 0 3) 1 fail_high_scores
    = (Scores.bestValue fail_high_scores, s,
       w :: Locals.tt_stores (locals_at 49 50 0 3))
    /\ forall (pos' : Position) (depth' : Depth) (l' : Locals.t),
         depth' <= 8 ->
         Locals.tte l' = Some (entry_of_store w) ->
         Locals.beta l' = Locals.beta (locals_at 49 50 0 3) ->
         SearchStack.ply (Locals.ss l')
           = SearchStack.ply (Scores.ss fail_high_scores) ->
         exists s' w',
           @tt_cutoff Stockfish21 NonPV false pos' depth' l'
           = Return (Scores.bestValue fail_high_scores) s' w'.
Proof.
  refine (@stored_score_cuts_again Stockfish21 quiet_position 8
            (locals_at 49 50 0 3) 1 fail_high_scores _ _ _ _ _).
  - discriminate.
  - reflexivity.
  - discriminate.
  - vm_compute. discriminate.
  - reflexivity.
Defined.

(** The store of that node, and the second visit at depth 6. *)
Example stored_score_sample :
  let '(v, _, w) :=
    @search_finish Stockfish21 quiet_position 8 false false
      (locals_at 49 50 0 3) 1 fail_high_scores in
  (v, map (fun x => (st_value x, st_type x, st_depth x, st_move x)) w)
  = (60, [(60, VALUE_TYPE_LOWER, 8, 796)]).
Proof. vm_compute. reflexivity. Qed.

Lemma qsearch_stored_score_cuts_again_witness :
  exists s w,
    @qsearch_finish Stockfish21 quiet_position false 10 50 (-2) []
      exact_qstate
    = (QState.bestValue exact_qstate, s, [w])
    /\ forall (ttDepth' : Depth) (ss' : SearchStack.t) (ttMove : Move),
         ttDepth' <= -2 ->
         SearchStack.ply ss' = SearchStack.ply (QState.ss exact_qstate) ->
         exists s',
           @qsearch_tt_cutoff Stockfish21 NonPV 50 ttDepth' ss' ttMove
             (Some (entry_of_store w))
           = Some (QState.bestValue exact_qstate, s').
Proof.
  refine (@qsearch_stored_score_cuts_again Stockfish21 quiet_position
            false 10 50 (-2) [] exact_qstate _ _ _ _).
  - reflexivity.
  - discriminate.
  - vm_compute. discriminate.
  - reflexivity.
Defined.

(** ** The move loop of [qsearch] *)

Section QSearchLoop.
Context {T : Types}.

Variable PvNode : NodeType.
Variable pos : Position.
Variable eng : Engine.
Variable ss_prev : SearchStack.t.
Variable picker : Move -> Depth -> list Move.
Variable child : Move -> Value -> Value -> Depth -> Value.

(** The outcomes of one pass through the loop body: the move is
    skipped; futility pruning raises [bestValue]; the move is searched
    and raises [alpha], raises only [bestValue], or neither. *)
Lemma qsearch_move_cases (P : QState.t -> Prop)
    (inCheck enoughMaterial : bool) (futilityBase beta : Value)
    (ttMove : Move) (depth : Depth) (move : Move) (q : QState.t) :
  P q ->
  (forall v, QState.bestValue q < v -> P (with_bestValue v q)) ->
  (forall v s, QState.bestValue q < v -> QState.alpha q < v ->
     P {| QState.alpha := v; QState.bestValue := v;
          QState.bestMove := move; QState.ss := s |}) ->
  (forall v s, QState.bestValue q < v -> v <= QState.alpha q ->
     P {| QState.alpha := QState.alpha q; QState.bestValue := v;
          QState.bestMove := QState.bestMove q; QState.ss := s |}) ->
  (forall s,
     P {| QState.alpha := QState.alpha q;
          QState.bestValue := QState.bestValue q;
          QState.bestMove := QState.bestMove q; QState.ss := s |}) ->
  P (qsearch_move PvNode pos ss_prev child inCheck enoughMaterial
       futilityBase beta ttMove depth move q).
Proof.
  intros Hskip Hfutile Hraise Hbest Hsame.
  unfold qsearch_move. cbv zeta.
  repeat match goal with
         | |- P (if ?a >? ?b then _ else _) => destruct (Z.gtb_spec a b)
         | |- P (if ?b then _ else _) => destruct b
         end;
    first [ exact Hskip
          | apply Hfutile; assumption
          | apply Hraise; assumption
          | apply Hbest; assumption
          | apply Hsame ].
Qed.

(** What every pass keeps, the loop keeps. *)
Lemma qsearch_moves_inv (P : QState.t -> Prop)
    (inCheck enoughMaterial : bool) (futilityBase beta : Value)
    (ttMove : Move) (depth : Depth) :
  (forall move q,
     P q ->
     P (qsearch_move PvNode pos ss_prev child inCheck enoughMaterial
          futilityBase beta ttMove depth move q)) ->
  forall (mp : list Move) (q : QState.t),
    P q ->
    P (qsearch_moves PvNode pos ss_prev child inCheck enoughMaterial
         futilityBase beta ttMove depth mp q).
Proof.
  intros Hstep mp. induction mp as [|move rest IH]; intros q Hq;
    cbn [qsearch_moves]; [exact Hq|].
  destruct (QState.alpha q <? beta); [|exact Hq].
  apply IH, Hstep, Hq.
Qed.

(** [bestValue] never goes down in the loop. *)
Lemma qsearch_moves_bestValue (b : Value)
    (inCheck enoughMaterial : bool) (futilityBase beta : Value)
    (ttMove : Move) (depth : Depth) (mp : list Move) (q : QState.t) :
  b <= QState.bestValue q ->
  b <= QState.bestValue
         (qsearch_moves PvNode pos ss_prev child inCheck enoughMaterial
            futilityBase beta ttMove depth mp q).
Proof.
  apply (qsearch_moves_inv (fun q => b <= QState.bestValue q)).
  intros move q0 Hq0. apply qsearch_move_cases; cbn; intros; lia.
Qed.

(** A best move is only recorded with a score above the alpha the
    node was entered with. *)
Lemma qsearch_moves_bestMove (oldAlpha : Value)
    (inCheck enoughMaterial : bool) (futilityBase beta : Value)
    (ttMove : Move) (depth : Depth) (mp : list Move) (q : QState.t) :
  oldAlpha <= QState.alpha q
  /\ (QState.bestMove q = MOVE_NONE \/ oldAlpha < QState.bestValue q) ->
  let q' := qsearch_moves PvNode pos ss_prev child inCheck enoughMaterial
              futilityBase beta ttMove depth mp q in
  oldAlpha <= QState.alpha q'
  /\ (QState.bestMove q' = MOVE_NONE \/ oldAlpha < QState.bestValue q').
Proof.
  apply (qsearch_moves_inv
           (fun q => oldAlpha <= QState.alpha q
                     /\ (QState.bestMove q = MOVE_NONE
                         \/ oldAlpha < QState.bestValue q))).
  intros move q0 [Ha Hm].
  apply qsearch_move_cases; cbn; intros;
    (split; [lia|]);
    first [ right; lia
          | destruct Hm; [left; assumption | right; lia] ].
Qed.

(** The store at the end of the node, under that invariant. *)
Lemma qsearch_finish_upper (inCheck : bool) (oldAlpha beta : Value)
    (ttDepth : Depth) (q : QState.t) :
  QState.bestMove q = MOVE_NONE \/ oldAlpha < QState.bestValue q ->
  Forall (fun w => st_type w = VALUE_TYPE_UPPER -> st_move w = MOVE_NONE)
         (snd (qsearch_finish pos inCheck oldAlpha beta ttDepth [] q)).
Proof.
  intros Hm. unfold qsearch_finish. cbv zeta.
  destruct (inCheck && (QState.bestValue q =? - VALUE_INFINITE));
    cbn [snd]; [constructor|].
  constructor; [|constructor]. cbn [st_type st_move].
  destruct (Z.leb_spec (QState.bestValue q) oldAlpha).
  - intros _. destruct Hm; [assumption|lia].
  - destruct (QState.bestValue q >=? beta); discriminate.
Qed.

End QSearchLoop.

(** X19: out of check, on a table miss, [qsearch] stands pat: at a
    node that is neither drawn nor too deep (nor, for a PV node,
    stalemate) it never returns less than the static evaluation,
    whatever the moves and the answers of the child searches. *)
Theorem qsearch_stands_pat {T : Types} (PvNode : NodeType)
    (pos : Position) (eng : Engine) (ss_prev : SearchStack.t)
    (picker : Move -> Depth -> list Move)
    (child : Move -> Value -> Value -> Depth -> Value)
    (alpha beta : Value) (depth : Depth) (ss : SearchStack.t) :
  in_check pos = false ->
  probe eng (get_key pos) = None ->
  is_draw pos = false ->
  SearchStack.ply ss_prev + 1 <= PLY_MAX ->
  is_pv PvNode && is_stalemate pos = false ->
  fst (evaluate pos)
  <= fst (fst (qsearch PvNode pos eng ss_prev picker child alpha beta
                 depth ss)).
Proof.
  intros Hcheck Hmiss Hdraw Hply Hstale.
  unfold qsearch. cbv zeta. cbn [SearchStack.set_ply SearchStack.ply].
  destruct (Z.gtb_spec (SearchStack.ply ss_prev + 1) PLY_MAX); [lia|].
  rewrite Hdraw. cbn [orb].
  unfold qsearch_lookup. rewrite Hmiss. cbn [probed_move drop_mismatch].
  unfold qsearch_after_lookup. cbv zeta.
  cbn [qsearch_tt_cutoff]. rewrite Hcheck, Hstale. cbn [orb].
  destruct (evaluate pos) as [ev margin]. cbn [fst].
  destruct (ev >=? beta); [cbn; lia|].
  unfold qsearch_finish. cbv zeta. cbn [andb fst].
  apply qsearch_moves_bestValue. cbn. lia.
Qed.

(** X20: whatever [qsearch] stores, an entry of kind UPPER carries no
    move: a move is only recorded as best with a score above the alpha
    the node was entered with, and such a score is never stored as an
    upper bound. *)
Theorem qsearch_upper_bound_has_no_move {T : Types} (PvNode : NodeType)
    (pos : Position) (eng : Engine) (ss_prev : SearchStack.t)
    (picker : Move -> Depth -> list Move)
    (child : Move -> Value -> Value -> Depth -> Value)
    (alpha beta : Value) (depth : Depth) (ss : SearchStack.t) :
  Forall (fun w => st_type w = VALUE_TYPE_UPPER -> st_move w = MOVE_NONE)
         (snd (qsearch PvNode pos eng ss_prev picker child alpha beta
                 depth ss)).
Proof.
  unfold qsearch. cbv zeta.
  destruct ((SearchStack.ply _ >? PLY_MAX) || is_draw pos);
    [constructor|].
  destruct (qsearch_lookup pos eng) as [ttMove tte].
  unfold qsearch_after_lookup. cbv zeta.
  destruct (qsearch_tt_cutoff _ _ _ _ _ _) as [[v s]|]; [constructor|].
  destruct (in_check pos).
  - apply qsearch_finish_upper.
    apply (qsearch_moves_bestMove PvNode pos ss_prev child alpha).
    cbn. split; [lia | now left].
  - destruct (is_pv PvNode && is_stalemate pos); [constructor|].
    match goal with
    | |- context [let '(s, bestValue) := ?x in _] =>
        destruct x as [s bestValue]
    end.
    destruct (bestValue >=? beta).
    + cbn [snd]. destruct tte; repeat constructor; discriminate.
    + apply qsearch_finish_upper.
      apply (qsearch_moves_bestMove PvNode pos ss_prev child alpha).
      cbn. split; [|now left].
      destruct (is_pv PvNode && (bestValue >? alpha)) eqn:E; [|lia].
      apply andb_prop in E as [_ E]. lia.
Qed.

Lemma qsearch_stands_pat_witness :
  fst (evaluate quiet_position)
  <= fst (fst (@qsearch Stockfish21 NonPV quiet_position (engine_with None)
                 (frame_at 2) one_move child_25 49 50 0 (frame_at 0))).
Proof.
  refine (@qsearch_stands_pat Stockfish21 NonPV quiet_position
            (engine_with None) (frame_at 2) one_move child_25 49 50 0
            (frame_at 0) _ _ _ _ _).
  - reflexivity.
  - reflexivity.
  - reflexivity.
  - vm_compute. discriminate.
  - reflexivity.
Defined.

(** That node: the only move loses 25 points, the static evaluation 40
    stands below the window (49, 50) and is stored as an upper bound
    without a move. *)
Example qsearch_upper_bound_sample :
  let '(v, _, w) :=
    @qsearch Stockfish21 NonPV quiet_position (engine_with None)
      (frame_at 2) one_move child_25 49 50 0 (frame_at 0) in
  (v, map (fun x => (st_type x, st_move x, st_value x, st_depth x)) w)
  = (40, [(VALUE_TYPE_UPPER, 0, 40, -2)]).
Proof. vm_compute. reflexivity. Qed.

(** ** Mate distance pruning *)

(** X21: away from the root and on a window with [alpha < beta],
    Steps 2 and 3 either return (a draw score for an aborted, drawn or
    too deep node; [alpha] itself when even a mate on the next ply
    could not raise it; the mated-now score when that already reaches
    beta) or go on with a window that lies within the old one and
    within the mate scores still possible at this ply, and with the
    frame untouched. *)
Theorem mate_distance_pruning {T : Types} (pos : Position) (eng : Engine)
    (l : Locals.t) :
  Locals.alpha l < Locals.beta l ->
  match step2_3 false pos eng l with
  | Return v _ _ =>
      v = VALUE_DRAW
      \/ (v = Locals.alpha l
          /\ value_mate_in (SearchStack.ply (Locals.ss l) + 1)
             <= Locals.alpha l)
      \/ (v = value_mated_in (SearchStack.ply (Locals.ss l))
          /\ Locals.beta l <= v)
  | Continue l' =>
      Locals.alpha l <= Locals.alpha l'
      /\ Locals.alpha l' < Locals.beta l'
      /\ Locals.beta l' <= Locals.beta l
      /\ value_mated_in (SearchStack.ply (Locals.ss l)) <= Locals.alpha l'
      /\ Locals.beta l' <= value_mate_in (SearchStack.ply (Locals.ss l) + 1)
      /\ Locals.ss l' = Locals.ss l
  end.
Proof.
  intros Hwin. unfold step2_3.
  pose proof ply_max_nonneg as H0. pose proof ply_max_lt_mate as H1.
  destruct (StopRequest eng); [now left|].
  destruct (cutoff_occurred eng); [now left|].
  destruct (is_draw pos); [now left|].
  destruct (Z.gtb_spec (SearchStack.ply (Locals.ss l)) PLY_MAX) as [|Hply];
    [now left|].
  cbn [orb]. cbv zeta. unfold value_mated_in, value_mate_in in *.
  match goal with
  | |- context [if ?a >=? ?b then _ else _] =>
      destruct (Z.geb_spec a b)
  end.
  - right. lia.
  - cbn [with_window Locals.alpha Locals.beta Locals.ss].
    repeat split; lia.
Qed.

Lemma mate_distance_pruning_witness :
  match @step2_3 Stockfish21 false quiet_position (engine_with None)
          (locals_at 29997 30000 0 3) with
  | Return v _ _ =>
      v = VALUE_DRAW
      \/ (v = Locals.alpha (locals_at 29997 30000 0 3)
          /\ @value_mate_in Stockfish21
               (SearchStack.ply (Locals.ss (locals_at 29997 30000 0 3)) + 1)
             <= Locals.alpha (locals_at 29997 30000 0 3))
      \/ (v = @value_mated_in Stockfish21
                (SearchStack.ply (Locals.ss (locals_at 29997 30000 0 3)))
          /\ Locals.beta (locals_at 29997 30000 0 3) <= v)
  | Continue l' =>
      Locals.alpha (locals_at 29997 30000 0 3) <= Locals.alpha l'
      /\ Locals.alpha l' < Locals.beta l'
      /\ Locals.beta l' <= Locals.beta (locals_at 29997 30000 0 3)
      /\ @value_mated_in Stockfish21
           (SearchStack.ply (Locals.ss (locals_at 29997 30000 0 3)))
         <= Locals.alpha l'
      /\ Locals.beta l'
         <= @value_mate_in Stockfish21
              (SearchStack.ply (Locals.ss (locals_at 29997 30000 0 3)) + 1)
      /\ Locals.ss l' = Locals.ss (locals_at 29997 30000 0 3)
  end.
Proof.
  exact (@mate_distance_pruning Stockfish21 quiet_position
           (engine_with None) (locals_at 29997 30000 0 3) eq_refl).
Defined.

(** At ply 3 a mate on the next ply scores 29996: the window
    (29997, 30000) is cut with alpha, the window (29990, 30000) is
    narrowed to (29990, 29996). *)
Example mate_distance_pruning_sample :
  (match @step2_3 Stockfish21 false quiet_position (engine_with None)
           (locals_at 29997 30000 0 3) with
   | Return v _ _ => Some v
   | Continue _ => None
   end,
   match @step2_3 Stockfish21 false quiet_position (engine_with None)
           (locals_at 29990 30000 0 3) with
   | Return _ _ _ => None
   | Continue l' => Some (Locals.alpha l', Locals.beta l')
   end)
  = (Some 29997, Some (29990, 29996)).
Proof. vm_compute. reflexivity. Qed.

(** ** Stalemate detection *)

Lemma firstn_S_nth {A : Type} (d : A) (l : list A) (n : nat) :
  (n < List.length l)%nat ->
  firstn (S n) l = (firstn n l ++ [nth n l d])%list.
Proof.
  revert n. induction l as [|a l IH]; intros n Hn; [cbn in Hn; lia|].
  destruct n as [|n]; [reflexivity|].
  cbn [firstn nth app]. f_equal. apply IH. cbn in Hn. lia.
Qed.

Lemma scan_firstn (legal : Move -> bool) (last : nat) :
  forall mlist : list Move,
    (last <= List.length mlist)%nat ->
    Stalemate.scan legal last mlist
    = forallb (fun m => negb (legal m)) (firstn last mlist).
Proof.
  induction last as [|k IH]; intros mlist Hlen; [reflexivity|].
  destruct mlist as [|m rest]; [cbn in Hlen; lia|].
  cbn [Stalemate.scan hd tl firstn forallb].
  destruct (legal m); [reflexivity|]. cbn [negb andb].
  rewrite IH by (cbn in *; lia).
  destruct k as [|j]; [reflexivity|].
  rewrite (@firstn_S_nth Move 0 rest j) by (cbn in Hlen; lia).
  change (firstn (S j) (nth (S j) (m :: rest) 0 :: rest))
    with (nth j rest 0 :: firstn j rest).
  cbn [forallb].
  rewrite forallb_app. cbn [forallb]. rewrite andb_true_r.
  apply andb_comm.
Qed.

(** X23: [is_stalemate] answers [true] exactly when none of the
    generated moves is legal; the overwriting of the first slot loses
    no move that has not been tested. *)
Theorem is_stalemate_no_legal_move (pl_move_is_legal : Move -> bool)
    (generated : list Move) :
  Stalemate.is_stalemate pl_move_is_legal generated
  = forallb (fun m => negb (pl_move_is_legal m)) generated.
Proof.
  unfold Stalemate.is_stalemate.
  rewrite scan_firstn by reflexivity. now rewrite firstn_all.
Qed.

(** Three generated moves of which only the second is legal. *)
Example is_stalemate_sample :
  (Stalemate.is_stalemate (fun m => m =? 812) [796; 812; 1330],
   Stalemate.is_stalemate (fun m => m =? 812) [796; 1330])
  = (false, true).
Proof. reflexivity. Qed.
